(** * DFU object transfer: notification queue and object writer

    A shallow embedding of [dfuNotificationQueue.js] (class
    [DfuNotificationQueue]) and [dfuObjectWriter.js] (class
    [DfuObjectWriter]) of pc-ble-driver-js, and the properties of the
    two classes that the design document states.

    Modelling conventions.
    - A JS number is a [Z]; a byte array is a [list Z]; [a[i]] is the
      list lookup [a !! i], whose [None] is JS's [undefined].
    - A promise is run to completion: an asynchronous method is a
      [Task], a function from the state of the world to the settled
      outcome ([Resolved] or [Rejected]) and the world at that moment.
      A [throw] inside a promise callback is a [Rejected] outcome.
    - Time is a millisecond counter.  Timers fire exactly when they are
      due.  Events of the adapter (notifications) and calls of
      [abort()] by the owner arrive from a schedule of time-stamped
      events and are dispatched whenever the code is suspended and the
      clock has reached their time stamp; an event stamped [t] is
      dispatched before the timers that are due at [t].
    - A [readNext] that loses the race against its timeout leaves the
      [wait] closure of [_waitForNotification] behind: nothing clears
      its timer, so it goes on polling, and its rounds go on shifting
      notifications off the buffer during later calls.  The world keeps
      these pollers; their rounds run, like the events, whenever the
      code is suspended.
    - Real timers fire a little late, and which of two timers of the
      same millisecond fires first is then a matter of chance.  In the
      model, of the timers that are due in the same instant the rounds
      of the left-over pollers come first, the oldest poller first,
      then the timeout of the running call, then the round of the
      running call; a call made in the very instant in which a poller
      was left behind polls after that poller as well.  *)

From stdpp Require Import base numbers list strings pretty.

(** ** Constants and errors ([dfuConstants.js]) *)

(** The numeric protocol constants live in [dfuConstants.js]; the code
    only compares against them, so they are parameters. *)
Class DfuConstants := {
  RESPONSE : Z;        (* ControlPointOpcode.RESPONSE *)
  CALCULATE_CRC : Z;   (* ControlPointOpcode.CALCULATE_CRC *)
  SUCCESS : Z;         (* ResultCode.SUCCESS *)
}.

(** The members of [ErrorCode] that the two classes use. *)
Inductive ErrorCode :=
  | ABORTED
  | NOTIFICATION_TIMEOUT
  | UNEXPECTED_NOTIFICATION
  | COMMAND_ERROR
  | INVALID_CRC
  | INVALID_OFFSET.

(** An error value: one made by [createError(code, message)], or one
    raised by a collaborator (the packet writer's transport). *)
Inductive Error :=
  | createError (code : ErrorCode) (message : string)
  | ExternalError (message : string).

Inductive Result (A : Type) :=
  | Resolved (a : A)
  | Rejected (e : Error).
Arguments Resolved {A} a.
Arguments Rejected {A} e.

Global Instance ErrorCode_eq_dec : EqDecision ErrorCode.
Proof. solve_decision. Defined.
Global Instance Error_eq_dec : EqDecision Error.
Proof. solve_decision. Defined.

(** The error kind of an outcome, if it is a failure made by [createError]. *)
Definition failure_code {A} (r : Result A) : option ErrorCode :=
  match r with
  | Rejected (createError c _) => Some c
  | _ => None
  end.

(** What a template literal prints for [${x}]. *)
Definition show (x : Z) : string := pretty x.
Definition show_elem (x : option Z) : string :=
  match x with
  | Some n => show n
  | None => "undefined"
  end.

(** ** Notifications and the queue's scan *)

Record Notification := {
  _instanceId : string;
  value : list Z;
}.

Section Scan.
Context `{DfuConstants}.

(** [_parseNotification(opCode, notification)]: [Resolved None] is the
    JS [null], [Resolved (Some v)] returns the payload, [Rejected] is a
    [throw]. *)
Definition _parseNotification (controlPointCharacteristicId : string)
    (opCode : Z) (notification : Notification) : Result (option (list Z)) :=
  if bool_decide (_instanceId notification ≠ controlPointCharacteristicId)
  then Resolved None
  else
    let value := value notification in
    if bool_decide (value !! 0 = Some RESPONSE) then
      if bool_decide (value !! 1 = Some opCode) then
        if bool_decide (value !! 2 = Some SUCCESS) then
          Resolved (Some value)
        else
          Rejected (createError COMMAND_ERROR
            ("Operation " +:+ show opCode +:+ " returned error code " +:+
             show_elem (value !! 2)))
      else
        Rejected (createError UNEXPECTED_NOTIFICATION
          ("Got unexpected response. Expected code " +:+ show RESPONSE +:+
           ", but got code " +:+ show_elem (value !! 1) +:+ "."))
    else Resolved None.

(** [_findNotification(opCode)]: shifts notifications off the head of
    the buffer until one parses to a payload or throws; returns the
    outcome and the remaining buffer.  [Resolved None] is the
    [undefined] returned when the buffer runs empty. *)
Fixpoint _findNotification (controlPointCharacteristicId : string)
    (opCode : Z) (notifications : list Notification)
    : Result (option (list Z)) * list Notification :=
  match notifications with
  | [] => (Resolved None, [])
  | notification :: rest =>
      match _parseNotification controlPointCharacteristicId opCode notification with
      | Resolved None => _findNotification controlPointCharacteristicId opCode rest
      | Resolved (Some v) => (Resolved (Some v), rest)
      | Rejected e => (Rejected e, rest)
      end
  end.
End Scan.

(** ** Collaborators that are not part of the two classes *)

(** [progressInfo]: the packet writer's locally computed state after a
    packet, reported when a checkpoint is due. *)
Record ProgressInfo := {
  offset : Z;
  crc32 : Z;
}.

(** What one [packetWriter.writePacket(packet)] call does: how long the
    returned promise takes to settle, the writer object afterwards, and
    the settled outcome ([Resolved None] is a resolution with
    [undefined], that is, no checkpoint is due). *)
Record WriteOutcome (W : Type) := {
  elapsed : N;
  writer_after : W;
  reported : Result (option ProgressInfo);
}.
Arguments elapsed {W} _.
Arguments writer_after {W} _.
Arguments reported {W} _.

(** The interface of [DfuPacketWriter] that [DfuObjectWriter] uses.
    [W] is the state of one writer object; [new] is the constructor. *)
Module DfuPacketWriter.
Class Interface (W : Type) := {
  new : string → W;
  setOffset : Z → W → W;
  setCrc32 : Z → W → W;
  setPrn : option Z → W → W;
  getOffset : W → Z;
  getCrc32 : W → Z;
  writePacket : list Z → W → WriteOutcome W;
}.
End DfuPacketWriter.

(** [arrayToInt] of [util/intArrayConv.js]. *)
Class IntArrayConv := {
  arrayToInt : list Z → Z;
}.

(** Modelled from the spec: [splitArray] of [util/arrayUtil.js] is not
    among the sources.  The design document says that the data is
    segmented into ordered packets no larger than the MTU size, that
    data of length L yields ceil(L/M) packets, and that 45 bytes with
    MTU 20 yield packets of 20, 20 and 5 bytes: every packet but the
    last is full.  The chunk size is a positive number of bytes; for
    chunk size 0 the document says nothing. *)
Fixpoint splitArray_from {A} (fuel : nat) (data : list A) (chunkSize : nat)
    : list (list A) :=
  match fuel with
  | O => []
  | S fuel' =>
      match data with
      | [] => []
      | _ :: _ =>
          take chunkSize data :: splitArray_from fuel' (drop chunkSize data) chunkSize
      end
  end.

Definition splitArray {A} (data : list A) (chunkSize : nat) : list (list A) :=
  splitArray_from (length data) data chunkSize.

(** [array.slice(from, to)] for [0 <= from <= to]. *)
Definition slice {A} (from to : nat) (a : list A) : list A :=
  take (to - from) (drop from a).

(** ** The world the two classes run in *)

Record DfuNotificationQueue := {
  _controlPointCharacteristicId : string;
  _notifications : list Notification;
}.

Record DfuObjectWriter := {
  _packetCharacteristicId : string;
  _notificationQueue : DfuNotificationQueue;
  _mtuSize : nat;
  _prn : option Z;       (* [None] until [setPrn] is called *)
  _abort : bool;
}.

Definition DEFAULT_MTU_SIZE : nat := 20.

(** [new DfuObjectWriter(adapter, controlPointCharacteristicId,
    packetCharacteristicId)]. *)
Definition newDfuObjectWriter (controlPointCharacteristicId packetCharacteristicId : string)
    : DfuObjectWriter :=
  {| _packetCharacteristicId := packetCharacteristicId;
     _notificationQueue :=
       {| _controlPointCharacteristicId := controlPointCharacteristicId;
          _notifications := [] |};
     _mtuSize := DEFAULT_MTU_SIZE;
     _prn := None;
     _abort := false |}.

(** What reaches the object writer from outside while it is suspended. *)
Inductive ExtEvent :=
  | CharacteristicValueChanged (notification : Notification)
      (* the adapter emits 'characteristicValueChanged' *)
  | AbortCall.
      (* the owner calls [abort()] *)

(** The calls made on the adapter and on the packet writer, and the
    [readNext] calls, in the order in which they happen. *)
Inductive Call :=
  | AdapterOn               (* adapter.on('characteristicValueChanged', cb) *)
  | AdapterRemoveListener   (* adapter.removeListener('characteristicValueChanged', cb) *)
  | WritePacket (packet : list Z)
  | ReadNext (opCode : Z).

(** A [wait] closure of [_waitForNotification] that is still polling
    although its promise has lost the race against the timeout of its
    [readNext]: the time of its next round, the opcode it scans for and
    the interval at which it re-arms its timer. *)
Record Poller := {
  poll_due : N;
  poll_opCode : Z;
  poll_interval : N;
}.

Record World := {
  self : DfuObjectWriter;
  listeners : nat;      (* how many times the adapter holds the queue's callback *)
  clock : N;            (* ms *)
  schedule : list (N * ExtEvent);   (* events still to come, with their time *)
  calls : list Call;
  pollers : list Poller;   (* left behind by timed-out [readNext] calls, oldest first *)
}.

Definition with_self (f : DfuObjectWriter → DfuObjectWriter) (w : World) : World :=
  {| self := f (self w); listeners := listeners w; clock := clock w;
     schedule := schedule w; calls := calls w; pollers := pollers w |}.
Definition with_listeners (f : nat → nat) (w : World) : World :=
  {| self := self w; listeners := f (listeners w); clock := clock w;
     schedule := schedule w; calls := calls w; pollers := pollers w |}.
Definition with_clock (t : N) (w : World) : World :=
  {| self := self w; listeners := listeners w; clock := t;
     schedule := schedule w; calls := calls w; pollers := pollers w |}.
Definition with_schedule (s : list (N * ExtEvent)) (w : World) : World :=
  {| self := self w; listeners := listeners w; clock := clock w;
     schedule := s; calls := calls w; pollers := pollers w |}.
Definition record_call (c : Call) (w : World) : World :=
  {| self := self w; listeners := listeners w; clock := clock w;
     schedule := schedule w; calls := calls w ++ [c]; pollers := pollers w |}.
Definition with_pollers (f : list Poller → list Poller) (w : World) : World :=
  {| self := self w; listeners := listeners w; clock := clock w;
     schedule := schedule w; calls := calls w; pollers := f (pollers w) |}.

Definition with_notifications (ns : list Notification) (o : DfuObjectWriter)
    : DfuObjectWriter :=
  {| _packetCharacteristicId := _packetCharacteristicId o;
     _notificationQueue :=
       {| _controlPointCharacteristicId :=
            _controlPointCharacteristicId (_notificationQueue o);
          _notifications := ns |};
     _mtuSize := _mtuSize o; _prn := _prn o; _abort := _abort o |}.

Definition buffer (w : World) : list Notification :=
  _notifications (_notificationQueue (self w)).
Definition control_point (w : World) : string :=
  _controlPointCharacteristicId (_notificationQueue (self w)).

(** The packets handed to the packet writer so far. *)
Definition written (cs : list Call) : list (list Z) :=
  omap (λ c, match c with WritePacket p => Some p | _ => None end) cs.

(** *** Methods that only touch fields *)

(** [abort()] *)
Definition abort (o : DfuObjectWriter) : DfuObjectWriter :=
  {| _packetCharacteristicId := _packetCharacteristicId o;
     _notificationQueue := _notificationQueue o;
     _mtuSize := _mtuSize o; _prn := _prn o; _abort := true |}.

(** [setPrn(prn)] *)
Definition setPrn (prn : Z) (o : DfuObjectWriter) : DfuObjectWriter :=
  {| _packetCharacteristicId := _packetCharacteristicId o;
     _notificationQueue := _notificationQueue o;
     _mtuSize := _mtuSize o; _prn := Some prn; _abort := _abort o |}.

(** [setMtuSize(mtuSize)] *)
Definition setMtuSize (mtuSize : nat) (o : DfuObjectWriter) : DfuObjectWriter :=
  {| _packetCharacteristicId := _packetCharacteristicId o;
     _notificationQueue := _notificationQueue o;
     _mtuSize := mtuSize; _prn := _prn o; _abort := _abort o |}.

(** [_onNotificationReceived(notification)], once per registration of
    the callback. *)
Definition _onNotificationReceived (notification : Notification) (w : World) : World :=
  with_self
    (with_notifications (buffer w ++ replicate (listeners w) notification)) w.

Definition dispatch (ev : ExtEvent) (w : World) : World :=
  match ev with
  | CharacteristicValueChanged notification => _onNotificationReceived notification w
  | AbortCall => with_self abort w
  end.

(** ** Tasks *)

Definition Task (A : Type) : Type := World → Result A * World.

Global Instance Task_ret : MRet Task := λ A a w, (Resolved a, w).
Global Instance Task_bind : MBind Task := λ A B f m w,
  match m w with
  | (Resolved a, w') => f a w'
  | (Rejected e, w') => (Rejected e, w')
  end.

Definition reject {A} (e : Error) : Task A := λ w, (Rejected e, w).

(** A synchronous step on the world. *)
Definition perform (f : World → World) : Task unit := λ w, (Resolved tt, f w).

(** [promise.then(onFulfilled).catch(onRejected)] *)
Definition then_catch {A B} (promise : Task A) (onFulfilled : A → Task B)
    (onRejected : Error → Task B) : Task B := λ w,
  match promise w with
  | (Resolved a, w') =>
      match onFulfilled a w' with
      | (Resolved b, w'') => (Resolved b, w'')
      | (Rejected e, w'') => onRejected e w''
      end
  | (Rejected e, w') => onRejected e w'
  end.

(** ** [DfuNotificationQueue] *)

(** [startListening()] *)
Definition startListening : Task unit :=
  perform (λ w, with_listeners S (record_call AdapterOn w)).

(** [stopListening()]: clears the buffer, then removes one registration
    of the callback (none if there is none). *)
Definition stopListening : Task unit :=
  perform (λ w,
    with_listeners Nat.pred
      (record_call AdapterRemoveListener (with_self (with_notifications []) w))).

Definition timeout : N := 20000.
Definition pollInterval : N := 20.

(** *** Suspension: events and left-over pollers *)

(** The round that is due first among the pollers, with its position:
    the one with the least time and, of rounds due in the same instant,
    the one of the oldest poller. *)
Fixpoint firstDue (ps : list Poller) : option (nat * Poller) :=
  match ps with
  | [] => None
  | p :: later =>
      match firstDue later with
      | Some (i, q) =>
          if decide (poll_due q < poll_due p)%N then Some (S i, q) else Some (0, p)
      | None => Some (0, p)
      end
  end.

(** How many rounds a poller has before the time [before], if nothing
    stops it. *)
Definition roundsBefore (before : N) (p : Poller) : nat :=
  if decide (poll_due p < before)%N
  then S (N.to_nat ((before - 1 - poll_due p) / poll_interval p))
  else 0.

Section Suspension.
Context `{DfuConstants}.

(** [this._findNotification(opCode)] on the queue of the world. *)
Definition findNotification (opCode : Z) : Task (option (list Z)) := λ w,
  let '(r, rest) := _findNotification (control_point w) opCode (buffer w) in
  (r, with_self (with_notifications rest) w).

(** A round of the left-over poller at position [i]: the body of the
    closure [wait].  When the scan finds nothing, [setTimeout(wait,
    pollInterval)] re-arms the timer.  When it returns a payload or
    throws, [resolve] or [reject] has no effect on the promise, which
    has settled long ago; the notifications that the scan has shifted
    are gone all the same, and the closure does not re-arm. *)
Definition staleRound (i : nat) (p : Poller) (w : World) : World :=
  match findNotification (poll_opCode p) w with
  | (Resolved None, w') =>
      with_pollers
        (λ ps, <[i := {| poll_due := poll_due p + poll_interval p;
                         poll_opCode := poll_opCode p;
                         poll_interval := poll_interval p |}]> ps) w'
  | (_, w') => with_pollers (delete i) w'
  end.

(** The rounds of the left-over pollers that are due before the time
    [before], one after the other in the order of their timers. *)
Fixpoint runPollers (fuel : nat) (before : N) (w : World) : World :=
  match fuel with
  | O => w
  | S fuel' =>
      match firstDue (pollers w) with
      | Some (i, p) =>
          if decide (poll_due p < before)%N
          then runPollers fuel' before (staleRound i p w)
          else w
      | None => w
      end
  end.

(** Every round re-arms at most once, so the pollers, which re-arm
    their timers at a positive interval, have no more rounds before
    [before] than [roundsBefore] counts. *)
Definition stalePolls (before : N) (w : World) : World :=
  runPollers (sum_list (roundsBefore before <$> pollers w)) before w.

(** What happens until the time [clock w] while the code is suspended:
    the scheduled events that are due are dispatched in order, each one
    after the rounds of the left-over pollers that are due before it;
    the rounds that are due by [clock w] come last. *)
Fixpoint deliver (events : list (N * ExtEvent)) (w : World) : World :=
  match events with
  | [] => with_schedule [] (stalePolls (clock w + 1) w)
  | (t, ev) :: later =>
      if decide (t ≤ clock w)%N then deliver later (dispatch ev (stalePolls t w))
      else with_schedule events (stalePolls (clock w + 1) w)
  end.

(** The code is suspended for [ms] milliseconds: the clock advances,
    the events that have become due are dispatched and the rounds of
    the left-over pollers that have become due are run. *)
Definition sleep (ms : N) : Task unit :=
  perform (λ w, let w' := with_clock (clock w + ms)%N w in deliver (schedule w') w').
End Suspension.

Section Queue.
Context `{DfuConstants}.

(** The closure [wait] of [_waitForNotification], observed until a
    timer that fires [budget] ms from now.  A round scans the buffer: a
    payload resolves the promise and a throw rejects it ([Some] of the
    settled outcome); otherwise [setTimeout(wait, pollInterval)] starts
    the next round [pollInterval] ms later.  [pollsLeft] is the number
    of rounds that still start before the observing timer fires; when
    none is left, the promise is pending when that timer fires
    ([None]).  The closure has then re-armed its timer for a round
    [pollInterval] ms after its last one, and nothing stops it: from
    the instant of the observing timer on it is one of the pollers of
    the world. *)
Fixpoint wait (opCode : Z) (pollInterval : N) (pollsLeft : nat) (budget : N)
    (w : World) : option (Result (list Z)) * World :=
  match findNotification opCode w with
  | (Resolved (Some notification), w') => (Some (Resolved notification), w')
  | (Rejected error, w') => (Some (Rejected error), w')
  | (Resolved None, w') =>
      match pollsLeft with
      | S pollsLeft' =>
          wait opCode pollInterval pollsLeft' (budget - pollInterval)%N
            (sleep pollInterval w').2
      | O =>
          let leftOver := {| poll_due := clock w' + pollInterval;
                             poll_opCode := opCode;
                             poll_interval := pollInterval |} in
          (None, with_pollers (λ ps, ps ++ [leftOver]) (sleep budget w').2)
      end
  end.

(** [_waitForNotification(opCode, pollInterval)], observed for [budget]
    ms.  The rounds after the first start [pollInterval],
    [2 * pollInterval], ... ms after the call; the ones counted start
    before [budget] ms have passed.  A round due in the same instant as
    the observing timer comes after it: that timer was created first. *)
Definition _waitForNotification (opCode : Z) (pollInterval budget : N)
    : World → option (Result (list Z)) * World :=
  wait opCode pollInterval (N.to_nat ((budget - 1) / pollInterval)) budget.

Definition timeoutError (opCode : Z) : Error :=
  createError NOTIFICATION_TIMEOUT
    ("Timed out when waiting for response to operation " +:+ show opCode).

(** [readNext(opCode)]: the race of [_waitForNotification] with the
    timeout promise, whose timer is created first.  When a scan settles
    the call, the closure stops polling, and the timeout fires later
    without effect.  When the timeout wins, the closure of
    [_waitForNotification] stays behind as a poller. *)
Definition readNext (opCode : Z) : Task (list Z) := λ w,
  match _waitForNotification opCode pollInterval timeout
          (record_call (ReadNext opCode) w) with
  | (Some settled, w') => (settled, w')
  | (None, w') => (Rejected (timeoutError opCode), w')
  end.
End Queue.

(** ** [DfuObjectWriter] *)

Section ObjectWriter.
Context `{DfuConstants} `{IntArrayConv} `{DfuPacketWriter.Interface W}.

(** [_createPacketWriter(offset, crc32)] *)
Definition _createPacketWriter (offset crc32 : Z) (this : DfuObjectWriter) : W :=
  let writer := DfuPacketWriter.new (_packetCharacteristicId this) in
  let writer := DfuPacketWriter.setOffset offset writer in
  let writer := DfuPacketWriter.setCrc32 crc32 writer in
  let writer := DfuPacketWriter.setPrn (_prn this) writer in
  writer.

(** [_checkAbortState()] *)
Definition _checkAbortState : Task unit := λ w,
  (if _abort (self w)
   then reject (createError ABORTED "Abort was triggered.")
   else mret tt) w.

(** [_validateOffset(notification, offset)] *)
Definition _validateOffset (notification : list Z) (offset : Z) : Task unit :=
  let offsetArray := slice 3 7 notification in
  let responseOffset := arrayToInt offsetArray in
  if bool_decide (responseOffset ≠ offset) then
    reject (createError INVALID_OFFSET
      ("Error when validating offset. Got " +:+ show responseOffset +:+
       ", but expected " +:+ show offset +:+ "."))
  else mret tt.

(** [_validateCrc32(notification, crc32)] *)
Definition _validateCrc32 (notification : list Z) (crc32 : Z) : Task unit :=
  let crc32Array := slice 7 11 notification in
  let responseCrc := arrayToInt crc32Array in
  if bool_decide (responseCrc ≠ crc32) then
    reject (createError INVALID_CRC
      ("Error when validating CRC. Got " +:+ show responseCrc +:+
       ", but expected " +:+ show crc32 +:+ "."))
  else mret tt.

(** [_validateProgress(progressInfo)] *)
Definition _validateProgress (progressInfo : ProgressInfo) : Task unit :=
  notification ← readNext CALCULATE_CRC;
  _validateOffset notification (offset progressInfo);;
  _validateCrc32 notification (crc32 progressInfo).

(** [packetWriter.writePacket(packet)] as a task: the call is made,
    the promise settles [elapsed] ms later. *)
Definition packetWriter_writePacket (packetWriter : W) (packet : list Z)
    : Task (W * option ProgressInfo) :=
  let outcome := DfuPacketWriter.writePacket packet packetWriter in
  perform (record_call (WritePacket packet));;
  sleep (elapsed outcome);;
  match reported outcome with
  | Resolved progressInfo => mret (writer_after outcome, progressInfo)
  | Rejected e => reject e
  end.

(** [_writePacket(packetWriter, packet)]; returns the writer object as
    the call leaves it. *)
Definition _writePacket (packetWriter : W) (packet : list Z) : Task W :=
  _checkAbortState;;
  '(packetWriter', progressInfo) ← packetWriter_writePacket packetWriter packet;
  match progressInfo with
  | Some progressInfo => _validateProgress progressInfo;; mret packetWriter'
  | None => mret packetWriter'
  end.

(** [_writePackets(packetWriter, packets)]: the [reduce] that chains
    one [_writePacket] per packet onto [Promise.resolve()]. *)
Definition _writePackets (packetWriter : W) (packets : list (list Z)) : Task W :=
  foldl (λ prevPromise packet,
           packetWriter' ← prevPromise; _writePacket packetWriter' packet)
        (mret packetWriter) packets.

(** [writeObject(data, offset, crc32)] *)
Definition writeObject (data : list Z) (offset crc32 : Z) : Task ProgressInfo := λ w,
  let packets := splitArray data (_mtuSize (self w)) in
  let packetWriter := _createPacketWriter offset crc32 (self w) in
  (startListening;;
   then_catch (_writePackets packetWriter packets)
     (λ packetWriter',
        stopListening;;
        mret {| offset := DfuPacketWriter.getOffset packetWriter';
                crc32 := DfuPacketWriter.getCrc32 packetWriter' |})
     (λ error,
        stopListening;;
        reject error)) w.
End ObjectWriter.

(** ** Vocabulary of the properties *)

Section Vocabulary.
Context `{DfuConstants}.

(** A notification that the scan drops: it comes from another
    characteristic, or its payload does not start with the response
    marker. *)
Definition discardable (controlPoint : string) (n : Notification) : Prop :=
  _instanceId n ≠ controlPoint ∨ value n !! 0 ≠ Some RESPONSE.

(** A successful response to [opCode] on the control point. *)
Definition matches (controlPoint : string) (opCode : Z) (n : Notification) : Prop :=
  _instanceId n = controlPoint ∧ value n !! 0 = Some RESPONSE ∧
  value n !! 1 = Some opCode ∧ value n !! 2 = Some SUCCESS.

Global Instance discardable_dec controlPoint n : Decision (discardable controlPoint n).
Proof. unfold discardable. apply _. Defined.
Global Instance matches_dec controlPoint opCode n :
  Decision (matches controlPoint opCode n).
Proof. unfold matches. apply _. Defined.

(** A scheduled event that cannot settle a [readNext]: a call of
    [abort()], or a notification that the scan drops. *)
Definition harmless (controlPoint : string) (ev : ExtEvent) : Prop :=
  match ev with
  | CharacteristicValueChanged n => discardable controlPoint n
  | AbortCall => True
  end.

Global Instance harmless_dec controlPoint ev : Decision (harmless controlPoint ev).
Proof. destruct ev; apply _. Defined.

(** Every scheduled event that is due by [deadline] is harmless. *)
Definition quiet (controlPoint : string) (deadline : N)
    (events : list (N * ExtEvent)) : Prop :=
  Forall (λ tev, (tev.1 ≤ deadline)%N → harmless controlPoint tev.2) events.
End Vocabulary.

(** The notifications among scheduled events, in arrival order. *)
Definition arrivals (events : list (N * ExtEvent)) : list Notification :=
  omap (λ tev, match tev.2 with
               | CharacteristicValueChanged n => Some n
               | AbortCall => None
               end) events.

(** The calls that a transfer makes between [startListening] and
    [stopListening]. *)
Definition transfer_call (c : Call) : Prop :=
  match c with
  | WritePacket _ | ReadNext _ => True
  | AdapterOn | AdapterRemoveListener => False
  end.

(** What every step of a transfer leaves alone: it only adds transfer
    calls, keeps the registrations of the callback and the
    configuration, and never resets the abort flag. *)
Definition transfer_step (w w' : World) : Prop :=
  (∃ cs, calls w' = calls w ++ cs ∧ Forall transfer_call cs) ∧
  listeners w' = listeners w ∧
  control_point w' = control_point w ∧
  _mtuSize (self w') = _mtuSize (self w) ∧
  (_abort (self w) = true → _abort (self w') = true).

(** What the rounds of left-over pollers change in the world:
    notifications are shifted off the head of the buffer, and the
    pollers re-arm or stop. *)
Definition polled (w w' : World) : Prop :=
  ∃ k ps, k ≤ length (buffer w) ∧
    w' = with_pollers (λ _, ps)
           (with_self (with_notifications (drop k (buffer w))) w).

(** Every run of the computation is related by [R]. *)
Definition preserves {X} (R : relation World) (m : World → X * World) : Prop :=
  ∀ w, R w (m w).2.

(** The calls of one packet iteration: the write and, when a checkpoint
    was reported, the [readNext] of its validation. *)
Definition packetRound `{DfuConstants} (packet : list Z) (validated : bool) : list Call :=
  WritePacket packet :: if validated then [ReadNext CALCULATE_CRC] else [].

(** The calls of consecutive packet iterations, one after the other. *)
Definition packetRounds `{DfuConstants} (packets : list (list Z))
    (validated : list bool) : list Call :=
  concat (zip_with packetRound packets validated).

(** The calls of a task leave the log as it is. *)
Definition same_calls (w w' : World) : Prop := calls w' = calls w.

(** A caller that issues [writeObject] calls one after the other, each
    when the previous one has settled.  The world that one call leaves
    is the world of the next, with the pollers that its timed-out
    [readNext] calls have left behind. *)
Fixpoint writeObjects `{DfuConstants} `{IntArrayConv} `{DfuPacketWriter.Interface W}
    (requests : list (list Z * Z * Z)) (w : World)
    : list (Result ProgressInfo) * World :=
  match requests with
  | [] => ([], w)
  | (data, offset, crc32) :: later =>
      let '(r, w') := writeObject data offset crc32 w in
      let '(rs, w'') := writeObjects later w' in
      (r :: rs, w'')
  end.

(** The errors that [_parseNotification] throws for a response with
    result code [resultCode], and for one with opcode [responseOpCode]. *)
Definition commandError (opCode : Z) (resultCode : option Z) : Error :=
  createError COMMAND_ERROR
    ("Operation " +:+ show opCode +:+ " returned error code " +:+
     show_elem resultCode).

Definition unexpectedNotification `{DfuConstants} (responseOpCode : option Z) : Error :=
  createError UNEXPECTED_NOTIFICATION
    ("Got unexpected response. Expected code " +:+ show RESPONSE +:+
     ", but got code " +:+ show_elem responseOpCode +:+ ".").

(** The errors of the object writer, and the comparison that
    [_validateProgress] makes on the payload of a response. *)
Definition invalidOffset (responseOffset offset : Z) : Error :=
  createError INVALID_OFFSET
    ("Error when validating offset. Got " +:+ show responseOffset +:+
     ", but expected " +:+ show offset +:+ ".").

Definition invalidCrc (responseCrc crc32 : Z) : Error :=
  createError INVALID_CRC
    ("Error when validating CRC. Got " +:+ show responseCrc +:+
     ", but expected " +:+ show crc32 +:+ ".").

Definition aborted : Error := createError ABORTED "Abort was triggered.".

Definition checkpointVerdict `{IntArrayConv} (v : list Z) (expected : ProgressInfo)
    : Result unit :=
  if bool_decide (arrayToInt (slice 3 7 v) ≠ offset expected) then
    Rejected (invalidOffset (arrayToInt (slice 3 7 v)) (offset expected))
  else if bool_decide (arrayToInt (slice 7 11 v) ≠ crc32 expected) then
    Rejected (invalidCrc (arrayToInt (slice 7 11 v)) (crc32 expected))
  else Resolved tt.

(** The outcomes that a payload [v] or an error [e] of [readNext(opCode)]
    can be. *)
Definition successResponse `{DfuConstants} (opCode : Z) (v : list Z) : Prop :=
  v !! 0 = Some RESPONSE ∧ v !! 1 = Some opCode ∧ v !! 2 = Some SUCCESS.

Definition readNextError `{DfuConstants} (opCode : Z) (e : Error) : Prop :=
  e = timeoutError opCode ∨
  (∃ resultCode, e = commandError opCode resultCode ∧ resultCode ≠ Some SUCCESS) ∨
  (∃ responseOpCode,
     e = unexpectedNotification responseOpCode ∧ responseOpCode ≠ Some opCode).



(** The world when the promise of [packetWriter.writePacket(packet)]
    settles. *)
Definition afterWrite `{DfuConstants} `{DfuPacketWriter.Interface W}
    (packetWriter : W) (packet : list Z) (w : World) : World :=
  (sleep (elapsed (DfuPacketWriter.writePacket packet packetWriter))
     (record_call (WritePacket packet) w)).2.

(** The writer object after it has written [packets] one by one. *)
Definition writerAfter `{DfuPacketWriter.Interface W} (packetWriter : W)
    (packets : list (list Z)) : W :=
  foldl (λ pw packet, writer_after (DfuPacketWriter.writePacket packet pw))
    packetWriter packets.

(** Modelled from the spec: [DfuPacketWriter] is not among the sources.
    The design document calls the offset and CRC32 of the packet writer
    its running state, set through [setOffset] and [setCrc32]; the
    getters read that state, and [setPrn] only sets the cadence. *)
Class RunningState (W : Type) `{DfuPacketWriter.Interface W} : Prop := {
  getOffset_setOffset offset pw :
    DfuPacketWriter.getOffset (DfuPacketWriter.setOffset offset pw) = offset;
  getOffset_setCrc32 crc32 pw :
    DfuPacketWriter.getOffset (DfuPacketWriter.setCrc32 crc32 pw) =
    DfuPacketWriter.getOffset pw;
  getOffset_setPrn prn pw :
    DfuPacketWriter.getOffset (DfuPacketWriter.setPrn prn pw) =
    DfuPacketWriter.getOffset pw;
  getCrc32_setCrc32 crc32 pw :
    DfuPacketWriter.getCrc32 (DfuPacketWriter.setCrc32 crc32 pw) = crc32;
  getCrc32_setPrn prn pw :
    DfuPacketWriter.getCrc32 (DfuPacketWriter.setPrn prn pw) =
    DfuPacketWriter.getCrc32 pw;
}.

(** ** Reference collaborators

    Concrete collaborators on which the classes can be run. *)

(** The constants of the Nordic Secure DFU protocol. *)
Definition secureDfuConstants : DfuConstants :=
  {| RESPONSE := 0x60; CALCULATE_CRC := 0x03; SUCCESS := 0x01 |}.

(** Modelled from the spec: [arrayToInt] is not among the sources.  The
    design document says that the four bytes are decoded as a 32-bit
    integer and leaves the byte order to the protocol; this instance
    reads the least significant byte first. *)
Definition arrayToInt_le (bytes : list Z) : Z :=
  foldr (λ b acc, b + 256 * acc)%Z 0%Z bytes.

Definition littleEndianConv : IntArrayConv := {| arrayToInt := arrayToInt_le |}.

(** The inverse direction, to build response payloads. *)
Fixpoint intToArray_le (len : nat) (n : Z) : list Z :=
  match len with
  | O => []
  | S len' => (n mod 256)%Z :: intToArray_le len' (n / 256)%Z
  end.

(** CRC-32 (reflected polynomial 0xEDB88320), continued from a previous
    checksum. *)
Definition crc32_bit (c : Z) : Z :=
  if Z.testbit c 0 then Z.lxor (Z.shiftr c 1) 0xEDB88320 else Z.shiftr c 1.

Definition crc32_byte (c b : Z) : Z :=
  Nat.iter 8 crc32_bit (Z.lxor c b).

Definition crc32_update (previous : Z) (bytes : list Z) : Z :=
  Z.lxor (foldl crc32_byte (Z.lxor previous 0xFFFFFFFF) bytes) 0xFFFFFFFF.

(** Modelled from the spec: [DfuPacketWriter] is not among the sources.
    The design document says that the packet writer keeps a running
    offset and CRC32, settable through [setOffset] and [setCrc32], and
    that [writePacket] reports a checkpoint, the state after the packet,
    when the cadence set by [setPrn] is reached: every [prn] packets,
    never when [prn] is 0.  The writes of this writer take [latency] ms
    and do not fail. *)
Record CadenceWriter := {
  cw_offset : Z;
  cw_crc32 : Z;
  cw_prn : Z;
  cw_prnCount : Z;
}.

Definition cadenceWriter (latency : N) : DfuPacketWriter.Interface CadenceWriter :=
  {| DfuPacketWriter.new := λ _,
       {| cw_offset := 0; cw_crc32 := 0; cw_prn := 0; cw_prnCount := 0 |};
     DfuPacketWriter.setOffset := λ offset pw,
       {| cw_offset := offset; cw_crc32 := cw_crc32 pw;
          cw_prn := cw_prn pw; cw_prnCount := cw_prnCount pw |};
     DfuPacketWriter.setCrc32 := λ crc32 pw,
       {| cw_offset := cw_offset pw; cw_crc32 := crc32;
          cw_prn := cw_prn pw; cw_prnCount := cw_prnCount pw |};
     DfuPacketWriter.setPrn := λ prn pw,
       {| cw_offset := cw_offset pw; cw_crc32 := cw_crc32 pw;
          cw_prn := default 0%Z prn; cw_prnCount := cw_prnCount pw |};
     DfuPacketWriter.getOffset := cw_offset;
     DfuPacketWriter.getCrc32 := cw_crc32;
     DfuPacketWriter.writePacket := λ packet pw,
       let offset := (cw_offset pw + Z.of_nat (length packet))%Z in
       let crc32 := crc32_update (cw_crc32 pw) packet in
       let count := (cw_prnCount pw + 1)%Z in
       let due := bool_decide (0 < cw_prn pw ∧ cw_prn pw ≤ count)%Z in
       {| elapsed := latency;
          writer_after :=
            {| cw_offset := offset; cw_crc32 := crc32; cw_prn := cw_prn pw;
               cw_prnCount := if due then 0%Z else count |};
          reported :=
            Resolved (if due then Some {| offset := offset; crc32 := crc32 |}
                      else None) |} |}.

(** The packet writer of the examples: a write takes 5 ms. *)
Definition exampleLink : DfuPacketWriter.Interface CadenceWriter := cadenceWriter 5.

(** ** Example data *)

Definition exampleWriter : DfuObjectWriter :=
  newDfuObjectWriter "control-point" "packet".

(** A notification of another characteristic. *)
Definition foreignNotification : Notification :=
  {| _instanceId := "battery-level"; value := [0x60; 0x03; 0x01]%Z |}.

(** A control-point notification that is not a response. *)
Definition unmarkedNotification : Notification :=
  {| _instanceId := "control-point"; value := [0x03; 0x03; 0x01]%Z |}.

(** A successful response to opcode 4. *)
Definition otherOpcodeResponse : Notification :=
  {| _instanceId := "control-point"; value := [0x60; 0x04; 0x01]%Z |}.

(** A response to [CALCULATE_CRC] with result code 5. *)
Definition failedResponse : Notification :=
  {| _instanceId := "control-point"; value := [0x60; 0x03; 0x05]%Z |}.

(** A [CALCULATE_CRC] success response that reports [offset] and [crc32]. *)
Definition crcResponse (offset crc32 : Z) : list Z :=
  [0x60; 0x03; 0x01]%Z ++ intToArray_le 4 offset ++ intToArray_le 4 crc32.

(** A successful response to [CALCULATE_CRC]. *)
Definition crcNotification (offset crc32 : Z) : Notification :=
  {| _instanceId := "control-point"; value := crcResponse offset crc32 |}.

(** The example writer at time 0 with [ns] buffered, [registrations]
    registrations of the callback and [events] to come; no poller is
    left over from an earlier call. *)
Definition exampleWorld (this : DfuObjectWriter) (ns : list Notification)
    (registrations : nat) (events : list (N * ExtEvent)) : World :=
  {| self := with_notifications ns this; listeners := registrations;
     clock := 0; schedule := events; calls := []; pollers := [] |}.

(** The example writer with a checkpoint after every packet. *)
Definition checkingWriter : DfuObjectWriter := setPrn 1 exampleWriter.

(** Sixty bytes: three packets at the default MTU size. *)
Definition firmware : list Z := (λ i, Z.of_nat i) <$> seq 0 60.

(** The running CRC32 after the first [n] bytes of [firmware]. *)
Definition firmwareCrc (n : nat) : Z := crc32_update 0 (take n firmware).

(** The device answers the checkpoints of the first two packets, 3 ms
    after each write has begun (a write takes 5 ms); the second answer
    is [second]. *)
Definition answers (second : Notification) : list (N * ExtEvent) :=
  [(3%N, CharacteristicValueChanged (crcNotification 20 (firmwareCrc 20)));
   (8%N, CharacteristicValueChanged second)].

(** ** Vocabulary of the further properties *)

(** What a transfer leaves of the configuration of the object writer. *)
Definition same_config (w w' : World) : Prop :=
  _packetCharacteristicId (self w') = _packetCharacteristicId (self w) ∧
  control_point w' = control_point w ∧
  _mtuSize (self w') = _mtuSize (self w) ∧
  _prn (self w') = _prn (self w).

(** The queue between transfers: not subscribed, nothing buffered. *)
Definition idle (w : World) : Prop := listeners w = 0 ∧ buffer w = [].

(** The first poll of a [readNext] called at [calledAt] that sees an
    event of time [t]: polls run every [pollInterval] ms, the scan of
    the call itself sees no event. *)
Definition pollsUntil (calledAt t : N) : N :=
  N.max 1 ((t - calledAt + pollInterval - 1) / pollInterval).

(** The poller that a [readNext(opCode)] called at time [calledAt] leaves
    behind when it times out: its next round is due in the instant of
    the timeout. *)
Definition leftOver (calledAt : N) (opCode : Z) : Poller :=
  {| poll_due := calledAt + timeout;
     poll_opCode := opCode;
     poll_interval := pollInterval |}.

(** How many pollers a call with the outcome [r] can have left behind:
    one if it has failed with [NotificationTimeout], none otherwise. *)
Definition leak {A} (r : Result A) : nat :=
  if decide (failure_code r = Some NOTIFICATION_TIMEOUT) then 1 else 0.

(** The events scheduled ahead of an awaited notification of time [t]:
    none of them is later than it, and none can settle a [readNext]. *)
Definition ahead `{DfuConstants} (controlPoint : string) (t : N)
    (events : list (N * ExtEvent)) : Prop :=
  Forall (λ tev, (tev.1 ≤ t)%N ∧ harmless controlPoint tev.2) events.

(** The packet writer reports no checkpoint and no failure for any of
    [packets], written one by one from the state [packetWriter]. *)
Fixpoint reportsNothing `{DfuPacketWriter.Interface W} (packetWriter : W)
    (packets : list (list Z)) : Prop :=
  match packets with
  | [] => True
  | packet :: later =>
      reported (DfuPacketWriter.writePacket packet packetWriter) = Resolved None ∧
      reportsNothing (writer_after (DfuPacketWriter.writePacket packet packetWriter)) later
  end.

(** No call of [abort()] is scheduled. *)
Definition noAbortScheduled (events : list (N * ExtEvent)) : Prop :=
  Forall (λ tev, tev.2 ≠ AbortCall) events.

(** A transfer that cannot be aborted: the flag is not set and no call
    of [abort()] is to come. *)
Definition unabortable (w : World) : Prop :=
  _abort (self w) = false ∧ noAbortScheduled (schedule w).

(** A packet writer whose transport fails: it behaves like the example
    writer until [limit] bytes have been written, and rejects every
    write from then on. *)
Definition failingLink (limit : Z) : DfuPacketWriter.Interface CadenceWriter :=
  {| DfuPacketWriter.new := DfuPacketWriter.new (Interface := exampleLink);
     DfuPacketWriter.setOffset := DfuPacketWriter.setOffset (Interface := exampleLink);
     DfuPacketWriter.setCrc32 := DfuPacketWriter.setCrc32 (Interface := exampleLink);
     DfuPacketWriter.setPrn := DfuPacketWriter.setPrn (Interface := exampleLink);
     DfuPacketWriter.getOffset := cw_offset;
     DfuPacketWriter.getCrc32 := cw_crc32;
     DfuPacketWriter.writePacket := λ packet pw,
       if bool_decide (limit ≤ cw_offset pw)%Z then
         {| elapsed := 5; writer_after := pw;
            reported := Rejected (ExternalError "write failed") |}
       else DfuPacketWriter.writePacket (Interface := exampleLink) packet pw |}.

(** The link of the next examples fails after 20 bytes. *)
Definition brokenLink : DfuPacketWriter.Interface CadenceWriter := failingLink 20.

(** * Properties *)

(** ** The scan *)

Section ScanFacts.
Context `{DfuConstants}.
Implicit Types (cp : string) (op : Z) (n : Notification).

Lemma parse_discardable cp op n :
  discardable cp n → _parseNotification cp op n = Resolved None.
Proof.
  unfold _parseNotification. intros [Hid | Hmark].
  - by rewrite bool_decide_eq_true_2.
  - case_bool_decide; [done|]. by rewrite (bool_decide_eq_false_2 _ Hmark).
Qed.

Lemma parse_null cp op n :
  _parseNotification cp op n = Resolved None → discardable cp n.
Proof.
  unfold _parseNotification, discardable.
  case_bool_decide as Hid; [by left|].
  case_bool_decide as Hmark; [|by right].
  by repeat case_bool_decide.
Qed.

Lemma parse_matches cp op n :
  matches cp op n → _parseNotification cp op n = Resolved (Some (value n)).
Proof.
  intros (Hid & H0 & H1 & H2). unfold _parseNotification.
  rewrite bool_decide_eq_false_2 by (intros Hne; by apply Hne).
  by rewrite !bool_decide_eq_true_2.
Qed.

Lemma matches_not_discardable cp op n : matches cp op n → ¬ discardable cp n.
Proof. intros (Hid & H0 & _) [?|?]; done. Qed.

Lemma find_skip cp op pre rest :
  Forall (discardable cp) pre →
  _findNotification cp op (pre ++ rest) = _findNotification cp op rest.
Proof.
  induction 1 as [|n pre Hn _ IH]; [done|].
  simpl. by rewrite (parse_discardable _ _ _ Hn).
Qed.

Lemma find_nothing cp op ns :
  Forall (discardable cp) ns → _findNotification cp op ns = (Resolved None, []).
Proof.
  intros Hns. rewrite <-(app_nil_r ns). by rewrite find_skip.
Qed.
Lemma parse_outcome cp op n :
  match _parseNotification cp op n with
  | Resolved (Some v) => successResponse op v
  | Resolved None => True
  | Rejected e => readNextError op e
  end.
Proof.
  unfold _parseNotification, successResponse, readNextError.
  repeat case_bool_decide; try done.
  - right. left. by eexists.
  - right. right. by eexists.
Qed.

Lemma find_outcome cp op (buf : list Notification) :
  match (_findNotification cp op buf).1 with
  | Resolved (Some v) => successResponse op v
  | Resolved None => True
  | Rejected e => readNextError op e
  end.
Proof.
  induction buf as [|n buf IH]; [done|]. simpl.
  pose proof (parse_outcome cp op n) as Hn.
  by destruct (_parseNotification cp op n) as [[v|]|e].
Qed.
End ScanFacts.

(** ** Tasks and what they leave alone *)

Lemma transfer_step_silent w w' :
  calls w' = calls w →
  listeners w' = listeners w →
  control_point w' = control_point w →
  _mtuSize (self w') = _mtuSize (self w) →
  (_abort (self w) = true → _abort (self w') = true) →
  transfer_step w w'.
Proof.
  intros Hc Hl Hp Hm Ha. split; [|done].
  exists []. by rewrite app_nil_r.
Qed.

Global Instance transfer_step_preorder : PreOrder transfer_step.
Proof.
  split.
  - intros w. by apply transfer_step_silent.
  - intros w1 w2 w3 ((cs1 & Hc1 & Hf1) & Hl1 & Hp1 & Hm1 & Ha1)
      ((cs2 & Hc2 & Hf2) & Hl2 & Hp2 & Hm2 & Ha2).
    repeat split; [|congruence..|auto].
    exists (cs1 ++ cs2). rewrite Hc2, Hc1, <-(assoc_L (++)).
    split; [done|]. by apply Forall_app.
Qed.

Lemma bind_run {A B} (m : Task A) (f : A → Task B) (w : World) :
  (m ≫= f) w =
  match m w with
  | (Resolved a, w') => f a w'
  | (Rejected e, w') => (Rejected e, w')
  end.
Proof. reflexivity. Qed.

Lemma ret_run {A} (a : A) (w : World) : (mret a : Task A) w = (Resolved a, w).
Proof. reflexivity. Qed.

Lemma perform_run (f : World → World) (w : World) :
  perform f w = (Resolved tt, f w).
Proof. reflexivity. Qed.

Section Preserves.
Context (R : relation World) `{!PreOrder R}.

Lemma preserves_ret {A} (a : A) : preserves R (mret a : Task A).
Proof. intros w. simpl. reflexivity. Qed.

Lemma preserves_reject {A} (e : Error) : preserves R (reject e : Task A).
Proof. intros w. simpl. reflexivity. Qed.

Lemma preserves_bind {A B} (m : Task A) (f : A → Task B) :
  preserves R m → (∀ a, preserves R (f a)) → preserves R (m ≫= f).
Proof.
  intros Hm Hf w. rewrite bind_run. specialize (Hm w).
  destruct (m w) as [[a|e] w']; simpl in *; [|done].
  etrans; [exact Hm|]. apply Hf.
Qed.

Lemma preserves_perform (f : World → World) :
  (∀ w, R w (f w)) → preserves R (perform f).
Proof. intros Hf w. apply Hf. Qed.
End Preserves.

(** Splits the goal for a bind; closes the goal for a return or a rejection. *)
Ltac step_bind := apply preserves_bind; try apply _.
Ltac step_done :=
  first [apply preserves_ret | apply preserves_reject]; apply _.

Lemma dispatch_step ev w : transfer_step w (dispatch ev w).
Proof.
  destruct ev; by apply transfer_step_silent.
Qed.

Lemma dispatch_clock ev w : clock (dispatch ev w) = clock w.
Proof. by destruct ev. Qed.

Lemma dispatch_pollers ev w : pollers (dispatch ev w) = pollers w.
Proof. by destruct ev. Qed.

Lemma record_call_step c : transfer_call c → ∀ w, transfer_step w (record_call c w).
Proof.
  intros Hc w. split; [|done]. exists [c]. split; [done|]. by constructor.
Qed.

(** ** Suspension: events and left-over pollers *)

Global Instance polled_preorder : PreOrder polled.
Proof.
  split.
  - intros w. exists 0, (pollers w). split; [lia|].
    by destruct w as [[pc [cp ns] m prn a] l c s cs ps].
  - intros w1 w2 w3 (k1 & ps1 & Hk1 & ->) (k2 & ps2 & Hk2 & ->).
    change (buffer (with_pollers (λ _, ps1)
                      (with_self (with_notifications (drop k1 (buffer w1))) w1)))
      with (drop k1 (buffer w1)) in *.
    rewrite length_drop in Hk2. exists (k1 + k2), ps2. split; [lia|].
    by rewrite drop_drop.
Qed.

Lemma polled_step w w' : polled w w' → transfer_step w w'.
Proof. intros (k & ps & _ & ->). by apply transfer_step_silent. Qed.

Lemma polled_clock w w' : polled w w' → clock w' = clock w.
Proof. by intros (k & ps & _ & ->). Qed.

Lemma polled_calls w w' : polled w w' → calls w' = calls w.
Proof. by intros (k & ps & _ & ->). Qed.

Lemma polled_schedule w w' : polled w w' → schedule w' = schedule w.
Proof. by intros (k & ps & _ & ->). Qed.

Lemma polled_listeners w w' : polled w w' → listeners w' = listeners w.
Proof. by intros (k & ps & _ & ->). Qed.

Lemma polled_control_point w w' : polled w w' → control_point w' = control_point w.
Proof. by intros (k & ps & _ & ->). Qed.

Lemma polled_abort w w' : polled w w' → _abort (self w') = _abort (self w).
Proof. by intros (k & ps & _ & ->). Qed.

Lemma polled_buffer w w' :
  polled w w' → ∃ k, k ≤ length (buffer w) ∧ buffer w' = drop k (buffer w).
Proof. intros (k & ps & Hk & ->). by exists k. Qed.

Lemma polled_Forall (P : Notification → Prop) w w' :
  polled w w' → Forall P (buffer w) → Forall P (buffer w').
Proof.
  intros (k & _ & ->)%polled_buffer Hbuf. by apply Forall_drop.
Qed.

Lemma polled_empty w w' : polled w w' → buffer w = [] → buffer w' = [].
Proof.
  intros (k & _ & ->)%polled_buffer ->. by rewrite drop_nil.
Qed.

Lemma firstDue_None ps : firstDue ps = None → ps = [].
Proof.
  destruct ps as [|p ps]; [done|]. simpl.
  destruct (firstDue ps) as [[i q]|]; [case_decide|]; done.
Qed.

(** [firstDue] picks a poller of the list, and none is due before it. *)
Lemma firstDue_Some ps i p :
  firstDue ps = Some (i, p) →
  ps !! i = Some p ∧ Forall (λ q, (poll_due p ≤ poll_due q)%N) ps.
Proof.
  revert i p. induction ps as [|q ps IH]; intros i p; [done|]. simpl.
  destruct (firstDue ps) as [[j r]|] eqn:Hfirst.
  - destruct (IH j r eq_refl) as [Hj Hall].
    case_decide as Hlt; intros [= <- <-].
    + split; [done|]. constructor; [lia|done].
    + split; [done|]. constructor; [done|].
      eapply Forall_impl; [exact Hall|]. simpl. intros; lia.
  - intros [= <- <-]. apply firstDue_None in Hfirst as ->.
    split; [done|]. by repeat constructor.
Qed.

Lemma sum_list_delete (f : Poller → nat) ps i p :
  ps !! i = Some p →
  sum_list (f <$> ps) = f p + sum_list (f <$> delete i ps).
Proof.
  revert i. induction ps as [|q ps IH]; intros [|i] Hi; simplify_eq/=; [done|].
  rewrite (IH i Hi). lia.
Qed.

Lemma sum_list_insert (f : Poller → nat) ps i p p' :
  ps !! i = Some p →
  sum_list (f <$> <[i:=p']> ps) = f p' + sum_list (f <$> delete i ps).
Proof.
  revert i. induction ps as [|q ps IH]; intros [|i] Hi; simplify_eq/=; [done|].
  rewrite (IH i Hi). lia.
Qed.

(** A poller that re-arms has one round less to go. *)
Lemma roundsBefore_rearm before p :
  (0 < poll_interval p)%N → (poll_due p < before)%N →
  S (roundsBefore before
       {| poll_due := poll_due p + poll_interval p;
          poll_opCode := poll_opCode p;
          poll_interval := poll_interval p |}) ≤ roundsBefore before p.
Proof.
  intros Hiv Hdue. unfold roundsBefore. cbn [poll_due poll_interval].
  rewrite (decide_True _ _ Hdue). case_decide as Hnext;
    [|apply le_n_S, Nat.le_0_l].
  replace (before - 1 - poll_due p)%N
    with (before - 1 - (poll_due p + poll_interval p) + 1 * poll_interval p)%N
    by lia.
  rewrite N.div_add by lia.
  set (q := (_ / _)%N). clearbody q. lia.
Qed.

Section SuspensionFacts.
Context `{DfuConstants}.
Implicit Types (op : Z) (w : World) (p : Poller).

Lemma find_rest cp op (buf : list Notification) :
  ∃ k, k ≤ length buf ∧ (_findNotification cp op buf).2 = drop k buf.
Proof.
  induction buf as [|n buf (k & Hk & IH)]; [by exists 0|]. simpl.
  destruct (_parseNotification cp op n) as [[v|]|e].
  - exists 1. split; [lia|done].
  - exists (S k). split; [lia|done].
  - exists 1. split; [lia|done].
Qed.

Lemma findNotification_run op w :
  findNotification op w =
  ((_findNotification (control_point w) op (buffer w)).1,
   with_self (with_notifications (_findNotification (control_point w) op (buffer w)).2) w).
Proof. unfold findNotification. by destruct (_findNotification _ _ _). Qed.

Lemma findNotification_step op : preserves transfer_step (findNotification op).
Proof.
  intros w. rewrite findNotification_run. by apply transfer_step_silent.
Qed.

(** A round of a left-over poller shifts notifications off the buffer
    and changes nothing else but the pollers. *)
Lemma staleRound_polled i p w : polled w (staleRound i p w).
Proof.
  unfold staleRound. rewrite findNotification_run.
  destruct (find_rest (control_point w) (poll_opCode p) (buffer w))
    as (k & Hk & Hrest).
  destruct (_findNotification _ _ _) as [[[v|]|e] rest]; simpl in Hrest; subst rest;
    cbn [fst snd].
  - by exists k, (delete i (pollers w)).
  - by exists k, (<[i := {| poll_due := poll_due p + poll_interval p;
                           poll_opCode := poll_opCode p;
                           poll_interval := poll_interval p |}]> (pollers w)).
  - by exists k, (delete i (pollers w)).
Qed.

Lemma staleRound_pollers i p w :
  pollers (staleRound i p w) = delete i (pollers w) ∨
  pollers (staleRound i p w) =
    <[i := {| poll_due := poll_due p + poll_interval p;
              poll_opCode := poll_opCode p;
              poll_interval := poll_interval p |}]> (pollers w).
Proof.
  unfold staleRound. rewrite findNotification_run.
  destruct (_findNotification _ _ _) as [[[v|]|e] rest]; cbn [fst snd];
    [by left|by right|by left].
Qed.

Lemma runPollers_polled fuel before w : polled w (runPollers fuel before w).
Proof.
  revert w. induction fuel as [|fuel IH]; intros w; cbn [runPollers];
    [reflexivity|].
  destruct (firstDue (pollers w)) as [[i p]|]; [|reflexivity].
  case_decide; [|reflexivity].
  etrans; [apply staleRound_polled|apply IH].
Qed.

Lemma stalePolls_polled before w : polled w (stalePolls before w).
Proof. apply runPollers_polled. Qed.

(** The rounds that [stalePolls] runs are all the rounds that are due:
    afterwards no poller has a round before [before]. *)
Lemma runPollers_complete fuel before w :
  sum_list (roundsBefore before <$> pollers w) ≤ fuel →
  Forall (λ p, (0 < poll_interval p)%N) (pollers w) →
  Forall (λ p, (before ≤ poll_due p)%N) (pollers (runPollers fuel before w)).
Proof.
  revert w. induction fuel as [|fuel IH]; intros w Hsum Hpos; cbn [runPollers].
  - apply Forall_forall. intros p [i Hi]%list_elem_of_lookup.
    rewrite (sum_list_delete _ _ _ _ Hi) in Hsum.
    unfold roundsBefore at 1 in Hsum.
    case_decide; [simpl in Hsum; inversion Hsum|lia].
  - destruct (firstDue (pollers w)) as [[i p]|] eqn:Hfirst.
    + apply firstDue_Some in Hfirst as [Hi Hmin].
      rewrite (sum_list_delete _ _ _ _ Hi) in Hsum.
      case_decide as Hdue.
      * pose proof (Forall_lookup_1 _ _ _ _ Hpos Hi) as Hiv. simpl in Hiv.
        apply IH; destruct (staleRound_pollers i p w) as [-> | ->].
        -- unfold roundsBefore at 1 in Hsum. rewrite decide_True in Hsum by done.
           set (q := N.to_nat _) in Hsum. clearbody q. simpl in Hsum. lia.
        -- rewrite (sum_list_insert _ _ _ _ _ Hi).
           pose proof (roundsBefore_rearm before p Hiv Hdue). lia.
        -- by apply Forall_delete.
        -- by apply Forall_insert.
      * eapply Forall_impl; [exact Hmin|]. simpl. intros; lia.
    + apply firstDue_None in Hfirst. rewrite Hfirst. constructor.
Qed.

Lemma stalePolls_complete before w :
  Forall (λ p, (0 < poll_interval p)%N) (pollers w) →
  Forall (λ p, (before ≤ poll_due p)%N) (pollers (stalePolls before w)).
Proof. intros Hpos. by apply runPollers_complete. Qed.

(** Without left-over pollers nothing happens between the events. *)
Lemma stalePolls_none before w : pollers w = [] → stalePolls before w = w.
Proof. intros Hps. unfold stalePolls. by rewrite Hps. Qed.

Lemma sleep_run (ms : N) (w : World) :
  sleep ms w =
  (Resolved tt, deliver (schedule w) (with_clock (clock w + ms)%N w)).
Proof. reflexivity. Qed.

(** What holds across the rounds of the pollers, across the dispatch
    of an event and across a change of the schedule holds across a
    suspension. *)
Lemma deliver_preserves (R : relation World) `{!PreOrder R} :
  (∀ w w', polled w w' → R w w') →
  (∀ ev w, R w (dispatch ev w)) →
  (∀ s w, R w (with_schedule s w)) →
  ∀ evs w, R w (deliver evs w).
Proof.
  intros Hpolled Hdispatch Hschedule evs.
  induction evs as [|[t ev] evs IH]; intros w; cbn [deliver].
  - etrans; [apply Hpolled, (stalePolls_polled (clock w + 1))|apply Hschedule].
  - case_decide.
    + etrans; [apply Hpolled, (stalePolls_polled t)|].
      etrans; [apply Hdispatch|apply IH].
    + etrans; [apply Hpolled, (stalePolls_polled (clock w + 1))|apply Hschedule].
Qed.

Lemma deliver_step evs w : transfer_step w (deliver evs w).
Proof.
  apply deliver_preserves; [apply _|apply polled_step|apply dispatch_step|].
  intros s w'. by apply transfer_step_silent.
Qed.

Lemma deliver_clock evs w : clock (deliver evs w) = clock w.
Proof.
  revert w. induction evs as [|[t ev] evs IH]; intros w; cbn [deliver].
  - exact (polled_clock w _ (stalePolls_polled (clock w + 1) w)).
  - case_decide.
    + rewrite IH, dispatch_clock. apply (polled_clock w), stalePolls_polled.
    + exact (polled_clock w _ (stalePolls_polled (clock w + 1) w)).
Qed.

(** Without left-over pollers, none appears while the code is
    suspended. *)
Lemma deliver_no_pollers evs w : pollers w = [] → pollers (deliver evs w) = [].
Proof.
  revert w. induction evs as [|[t ev] evs IH]; intros w Hps; cbn [deliver].
  - by rewrite stalePolls_none.
  - case_decide.
    + apply IH. by rewrite dispatch_pollers, stalePolls_none.
    + by rewrite stalePolls_none.
Qed.

Lemma sleep_step ms : preserves transfer_step (sleep ms).
Proof.
  intros w. rewrite sleep_run. simpl.
  etrans; [|apply deliver_step]. by apply transfer_step_silent.
Qed.

Lemma sleep_clock ms w : clock (sleep ms w).2 = (clock w + ms)%N.
Proof. rewrite sleep_run. simpl. by rewrite deliver_clock. Qed.
End SuspensionFacts.

Section QueueFacts.
Context `{DfuConstants}.
Implicit Types (op : Z) (w : World).

Lemma wait_step op interval pollsLeft budget :
  preserves transfer_step (wait op interval pollsLeft budget).
Proof.
  revert budget. induction pollsLeft as [|k IH]; intros budget w; cbn [wait];
    pose proof (findNotification_step op w) as Hfind;
    destruct (findNotification op w) as [[[v|]|e] w']; cbn [fst snd] in *; try done.
  - etrans; [exact Hfind|]. etrans; [apply (sleep_step budget)|].
    by apply transfer_step_silent.
  - etrans; [exact Hfind|]. etrans; [apply (sleep_step interval)|]. apply IH.
Qed.

Lemma readNext_step op : preserves transfer_step (readNext op).
Proof.
  intros w. unfold readNext, _waitForNotification.
  pose proof (wait_step op pollInterval
                (N.to_nat ((timeout - 1) / pollInterval)) timeout
                (record_call (ReadNext op) w)) as Hwait.
  destruct (wait _ _ _ _ _) as [[r|] w']; simpl in *;
    (etrans; [by apply (record_call_step (ReadNext op))|exact Hwait]).
Qed.
Lemma wait_outcome op interval pollsLeft budget w :
  match (wait op interval pollsLeft budget w).1 with
  | Some (Resolved v) => successResponse op v
  | Some (Rejected e) => readNextError op e
  | None => True
  end.
Proof.
  revert budget w. induction pollsLeft as [|k IH]; intros budget w; cbn [wait];
    rewrite findNotification_run;
    pose proof (find_outcome (control_point w) op (buffer w)) as Hfind;
    destruct (_findNotification _ _ _) as [[[v|]|e] rest]; cbn [fst snd] in *;
    try done.
  apply IH.
Qed.

End QueueFacts.

(** ** [readNext] *)

Section ReadNext.
Context `{DfuConstants}.
Implicit Types (op : Z) (w : World) (n : Notification).

(** A scan that settles settles the call in the same instant. *)
Lemma readNext_settled_by_scan op w pre n post (r : Result (list Z)) :
  buffer w = pre ++ n :: post →
  Forall (discardable (control_point w)) pre →
  match _parseNotification (control_point w) op n with
  | Resolved (Some v) => r = Resolved v
  | Resolved None => False
  | Rejected e => r = Rejected e
  end →
  readNext op w =
  (r, with_self (with_notifications post) (record_call (ReadNext op) w)).
Proof.
  intros Hbuf Hpre Hparse. unfold readNext, _waitForNotification.
  destruct (N.to_nat _) as [|k]; simpl; rewrite findNotification_run;
    change (buffer (record_call _ w)) with (buffer w);
    change (control_point (record_call _ w)) with (control_point w);
    rewrite Hbuf, find_skip by done; simpl;
    destruct (_parseNotification _ _ n) as [[v|]|e]; by subst.
Qed.

Lemma deliver_quiet cp deadline evs w :
  control_point w = cp →
  quiet cp deadline evs →
  (clock w ≤ deadline)%N →
  Forall (discardable cp) (buffer w) →
  Forall (discardable cp) (buffer (deliver evs w)) ∧
  quiet cp deadline (schedule (deliver evs w)).
Proof.
  revert w. induction evs as [|[t ev] evs IH]; intros w Hcp Hq Hclk Hbuf;
    cbn [deliver].
  - split; [|by constructor].
    exact (polled_Forall _ w _ (stalePolls_polled (clock w + 1) w) Hbuf).
  - case_decide as Hdue.
    + pose proof (stalePolls_polled t w) as Hp.
      apply Forall_cons in Hq as [Hev Hq]. simpl in Hev.
      apply IH; [|done| |].
      * rewrite <-Hcp, <-(polled_control_point _ _ Hp). by destruct ev.
      * by rewrite dispatch_clock, (polled_clock _ _ Hp).
      * apply (polled_Forall _ _ _ Hp) in Hbuf.
        destruct ev as [n|]; [|done].
        change (buffer (dispatch (CharacteristicValueChanged n) (stalePolls t w)))
          with (buffer (stalePolls t w) ++
                replicate (listeners (stalePolls t w)) n).
        apply Forall_app. split; [done|].
        apply Forall_replicate, Hev. lia.
    + split; [|done].
      exact (polled_Forall _ w _ (stalePolls_polled (clock w + 1) w) Hbuf).
Qed.

(** A scan that exhausts the buffer does not fail the call: the next
    round runs one poll interval later. *)
Lemma wait_repolls op interval pollsLeft budget w :
  Forall (discardable (control_point w)) (buffer w) →
  wait op interval (S pollsLeft) budget w =
  wait op interval pollsLeft (budget - interval)
    (sleep interval (with_self (with_notifications []) w)).2.
Proof.
  intros Hbuf. cbn [wait]. by rewrite findNotification_run, find_nothing.
Qed.

Lemma wait_quiet op interval pollsLeft budget w :
  (N.of_nat pollsLeft * interval ≤ budget)%N →
  Forall (discardable (control_point w)) (buffer w) →
  quiet (control_point w) (clock w + budget) (schedule w) →
  ∃ w', wait op interval pollsLeft budget w = (None, w') ∧
        clock w' = (clock w + budget)%N.
Proof.
  revert budget w.
  induction pollsLeft as [|k IH]; intros budget w Hk Hbuf Hq; cbn [wait];
    rewrite findNotification_run, find_nothing by done; cbn [fst snd].
  - eexists. split; [done|].
    change (clock (with_pollers ?f ?w0)) with (clock w0). by rewrite sleep_clock.
  - set (w1 := with_self (with_notifications []) w).
    destruct (deliver_quiet (control_point w) (clock w + budget)%N (schedule w1)
                (with_clock (clock w1 + interval)%N w1)) as [Hbuf' Hq'];
      [done|done|simpl; lia|by constructor|].
    destruct (IH (budget - interval)%N (sleep interval w1).2) as (w' & Hrun & Hclk).
    + lia.
    + rewrite sleep_run. cbn [snd].
      by rewrite (proj1 (proj2 (proj2 (deliver_step _ _)))).
    + rewrite sleep_run. cbn [snd].
      rewrite (proj1 (proj2 (proj2 (deliver_step _ _)))), deliver_clock.
      simpl. replace (clock w + interval + (budget - interval))%N
        with (clock w + budget)%N by lia. done.
    + exists w'. split; [done|]. rewrite Hclk, sleep_clock. simpl. lia.
Qed.
End ReadNext.

Section ReadNextClaims.
Context `{DfuConstants}.
Implicit Types (op : Z) (w : World) (n : Notification).

(** C1 (amended): when every notification buffered ahead of the first
    one that matches (control-point channel, response marker, the
    requested opcode, success code) is from a different channel or has
    a byte [0] other than the response marker, [readNext(opCode)]
    resolves with the payload of that first match, in the instant of
    the call; the notifications ahead of it are consumed without
    being returned or raising an error, and the ones behind it stay
    buffered. *)
Theorem readNext_returns_first_match op w i n :
  list_find (matches (control_point w) op) (buffer w) = Some (i, n) →
  Forall (discardable (control_point w)) (take i (buffer w)) →
  readNext op w =
  (Resolved (value n),
   with_self (with_notifications (drop (S i) (buffer w)))
     (record_call (ReadNext op) w)).
Proof.
  intros (Hi & Hn & _)%list_find_Some Hpre.
  apply readNext_settled_by_scan with (pre := take i (buffer w)) (n := n);
    [by rewrite take_drop_middle|done|].
  by rewrite (parse_matches _ _ _ Hn).
Qed.

(** The message of a [CommandError] determines the result code. *)
Lemma commandError_inj op (b b' : Z) :
  commandError op (Some b) = commandError op (Some b') → b = b'.
Proof.
  unfold commandError, show_elem, show. intros [= Heq].
  apply (pretty_Z_inj b b').
  apply (String.app_inj " returned error code ").
  apply (String.app_inj (pretty op)). exact Heq.
Qed.

(** C5: a control-point notification with the response marker in
    byte [0], the requested opcode in byte [1] and a byte [2] other
    than the success code makes [_parseNotification] throw
    [CommandError] with the result code (byte [2]) in its message, from
    which the code can be read back; when the scan of [readNext] comes
    to such a buffered notification, the call is rejected with that
    error in the instant of the call, without another poll, and
    everything buffered behind the notification stays buffered. *)
Theorem readNext_command_error op controlPoint n :
  _instanceId n = controlPoint →
  value n !! 0 = Some RESPONSE →
  value n !! 1 = Some op →
  value n !! 2 ≠ Some SUCCESS →
  let error := commandError op (value n !! 2) in
  _parseNotification controlPoint op n = Rejected error ∧
  (∀ w pre post,
     control_point w = controlPoint →
     buffer w = pre ++ n :: post →
     Forall (discardable controlPoint) pre →
     readNext op w =
     (Rejected error,
      with_self (with_notifications post) (record_call (ReadNext op) w))) ∧
  (∀ b b' : Z, commandError op (Some b) = commandError op (Some b') → b = b').
Proof.
  intros Hid H0 H1 H2 error.
  assert (_parseNotification controlPoint op n = Rejected error) as Hparse.
  { unfold _parseNotification.
    rewrite bool_decide_eq_false_2 by (intros Hne; by apply Hne).
    by rewrite (bool_decide_eq_true_2 _ H0), (bool_decide_eq_true_2 _ H1),
      (bool_decide_eq_false_2 _ H2). }
  split_and!; [done| |apply commandError_inj].
  intros w pre post <- Hbuf Hpre.
  apply readNext_settled_by_scan with (pre := pre) (n := n); [done..|].
  by rewrite Hparse.
Qed.

(** C6: a control-point notification with the response marker in
    byte [0] and a byte [1] other than the requested opcode makes
    [_parseNotification] throw [UnexpectedNotification]; when the scan
    of [readNext] comes to such a buffered notification, the call is
    rejected with that error in the instant of the call: it is not
    dropped, there is no other poll, and everything buffered behind the
    notification stays buffered. *)
Theorem readNext_unexpected_notification op controlPoint n :
  _instanceId n = controlPoint →
  value n !! 0 = Some RESPONSE →
  value n !! 1 ≠ Some op →
  let error := unexpectedNotification (value n !! 1) in
  _parseNotification controlPoint op n = Rejected error ∧
  ∀ w pre post,
    control_point w = controlPoint →
    buffer w = pre ++ n :: post →
    Forall (discardable controlPoint) pre →
    readNext op w =
    (Rejected error,
     with_self (with_notifications post) (record_call (ReadNext op) w)).
Proof.
  intros Hid H0 H1 error.
  assert (_parseNotification controlPoint op n = Rejected error) as Hparse.
  { unfold _parseNotification.
    rewrite bool_decide_eq_false_2 by (intros Hne; by apply Hne).
    by rewrite (bool_decide_eq_true_2 _ H0), (bool_decide_eq_false_2 _ H1). }
  split; [done|].
  intros w pre post <- Hbuf Hpre.
  apply readNext_settled_by_scan with (pre := pre) (n := n); [done..|].
  by rewrite Hparse.
Qed.

(** C4 (amended): when every notification that is buffered at the
    call or arrives within the 20 s ceiling is from another channel or
    lacks the response marker, [readNext] is rejected with
    [NotificationTimeout], and exactly 20 s after the call: however
    many such notifications are dropped, none of them ends the call
    earlier. *)
Theorem readNext_timeout op w :
  Forall (discardable (control_point w)) (buffer w) →
  quiet (control_point w) (clock w + timeout) (schedule w) →
  ∃ w', readNext op w = (Rejected (timeoutError op), w') ∧
        clock w' = (clock w + timeout)%N.
Proof.
  intros Hbuf Hq. unfold readNext, _waitForNotification.
  destruct (wait_quiet op pollInterval (N.to_nat ((timeout - 1) / pollInterval))
              timeout (record_call (ReadNext op) w))
    as (w' & Hrun & Hclk); [by vm_compute|done..|].
  rewrite Hrun. by exists w'.
Qed.
End ReadNextClaims.

(** ** The call log *)

Global Instance same_calls_preorder : PreOrder same_calls.
Proof.
  split; [by intros w|].
  intros w1 w2 w3 H12 H23. unfold same_calls in *. congruence.
Qed.

Section QueueCalls.
Context `{DfuConstants}.

Lemma deliver_calls evs w : calls (deliver evs w) = calls w.
Proof.
  apply (deliver_preserves same_calls); [apply polled_calls|by intros []|done].
Qed.

Lemma sleep_same_calls ms : preserves same_calls (sleep ms).
Proof.
  intros w. rewrite sleep_run. unfold same_calls. simpl. by rewrite deliver_calls.
Qed.

Lemma wait_same_calls op interval pollsLeft budget :
  preserves same_calls (wait op interval pollsLeft budget).
Proof.
  revert budget. induction pollsLeft as [|k IH]; intros budget w; cbn [wait];
    rewrite findNotification_run;
    destruct (_findNotification _ _ _) as [[[v|]|e] rest]; cbn [fst snd];
    try done.
  - by etrans; [|apply (sleep_same_calls budget)].
  - etrans; [|apply IH]. by etrans; [|apply (sleep_same_calls interval)].
Qed.

Lemma readNext_calls op w :
  calls (readNext op w).2 = calls w ++ [ReadNext op].
Proof.
  unfold readNext, _waitForNotification.
  pose proof (wait_same_calls op pollInterval
                (N.to_nat ((timeout - 1) / pollInterval)) timeout
                (record_call (ReadNext op) w)) as Hw.
  destruct (wait _ _ _ _ _) as [[r|] w']; exact Hw.
Qed.
End QueueCalls.

(** ** The object writer, step by step *)

Section ObjectWriterFacts.
Context `{DfuConstants} `{IntArrayConv} `{DfuPacketWriter.Interface W}.
Implicit Types (w : World) (pw : W) (p : list Z) (pi : ProgressInfo).

Lemma _validateProgress_run pi w :
  _validateProgress pi w =
  match readNext CALCULATE_CRC w with
  | (Resolved v, w') => (checkpointVerdict v pi, w')
  | (Rejected e, w') => (Rejected e, w')
  end.
Proof.
  unfold _validateProgress. rewrite bind_run.
  destruct (readNext CALCULATE_CRC w) as [[v|e] w']; [|done].
  rewrite bind_run. unfold _validateOffset, _validateCrc32, checkpointVerdict.
  by repeat case_bool_decide.
Qed.

Lemma _writePacket_run pw p w :
  _writePacket pw p w =
  if _abort (self w) then (Rejected aborted, w)
  else
    let outcome := DfuPacketWriter.writePacket p pw in
    match reported outcome with
    | Rejected e => (Rejected e, afterWrite pw p w)
    | Resolved None => (Resolved (writer_after outcome), afterWrite pw p w)
    | Resolved (Some pi) =>
        match _validateProgress pi (afterWrite pw p w) with
        | (Resolved _, w') => (Resolved (writer_after outcome), w')
        | (Rejected e, w') => (Rejected e, w')
        end
    end.
Proof.
  unfold _writePacket, _checkAbortState, packetWriter_writePacket, afterWrite.
  rewrite bind_run. destruct (_abort (self w)); [done|].
  rewrite ret_run, !bind_run, perform_run, bind_run.
  destruct (sleep _ _) as [[[]|e] w1] eqn:Hs; [|done]. simpl.
  destruct (reported (DfuPacketWriter.writePacket p pw)) as [[pi|]|e]; [|done..].
  rewrite ret_run, bind_run.
  by destruct (_validateProgress pi w1) as [[[]|e] w2].
Qed.

Lemma _writePackets_nil pw w : _writePackets pw [] w = (Resolved pw, w).
Proof. reflexivity. Qed.

Lemma _writePackets_chain (prevPromise : Task W) packets w :
  foldl (λ prevPromise packet,
           packetWriter' ← prevPromise; _writePacket packetWriter' packet)
        prevPromise packets w =
  match prevPromise w with
  | (Resolved pw, w') => _writePackets pw packets w'
  | (Rejected e, w') => (Rejected e, w')
  end.
Proof.
  revert prevPromise w. induction packets as [|p packets IH]; intros m w.
  - simpl. by destruct (m w) as [[pw|e] w'].
  - simpl. rewrite IH, bind_run.
    destruct (m w) as [[pw|e] w']; [|done].
    unfold _writePackets. simpl. by rewrite IH, bind_run, ret_run.
Qed.

Lemma _writePackets_cons pw p packets w :
  _writePackets pw (p :: packets) w =
  match _writePacket pw p w with
  | (Resolved pw', w') => _writePackets pw' packets w'
  | (Rejected e, w') => (Rejected e, w')
  end.
Proof.
  unfold _writePackets at 1. simpl. by rewrite _writePackets_chain, bind_run, ret_run.
Qed.
End ObjectWriterFacts.

Section ObjectWriterSteps.
Context `{DfuConstants} `{IntArrayConv} `{DfuPacketWriter.Interface W}.
Implicit Types (w : World) (pw : W) (p : list Z) (pi : ProgressInfo).

Lemma afterWrite_calls pw p w :
  calls (afterWrite pw p w) = calls w ++ [WritePacket p].
Proof. unfold afterWrite. by rewrite sleep_same_calls. Qed.

Lemma afterWrite_step pw p w : transfer_step w (afterWrite pw p w).
Proof.
  unfold afterWrite. etrans; [|apply sleep_step]. by apply record_call_step.
Qed.

Lemma _validateProgress_calls pi w :
  calls (_validateProgress pi w).2 = calls w ++ [ReadNext CALCULATE_CRC].
Proof.
  rewrite _validateProgress_run, <-readNext_calls.
  by destruct (readNext CALCULATE_CRC w) as [[v|e] w'].
Qed.

Lemma _validateProgress_step pi : preserves transfer_step (_validateProgress pi).
Proof.
  intros w. rewrite _validateProgress_run.
  pose proof (readNext_step CALCULATE_CRC w) as Hr.
  by destruct (readNext CALCULATE_CRC w) as [[v|e] w'].
Qed.

(** One packet iteration: either the abort flag stops it before
    anything happens, or the packet is written and, if a checkpoint
    is reported, validated. *)
Lemma _writePacket_calls pw p w :
  (_abort (self w) = true ∧ _writePacket pw p w = (Rejected aborted, w)) ∨
  (_abort (self w) = false ∧
   ∃ validated, calls (_writePacket pw p w).2 = calls w ++ packetRound p validated).
Proof.
  rewrite _writePacket_run. destruct (_abort (self w)); [by left|right].
  split; [done|]. simpl.
  destruct (reported (DfuPacketWriter.writePacket p pw)) as [[pi|]|e].
  - exists true. pose proof (_validateProgress_calls pi (afterWrite pw p w)) as Hv.
    rewrite afterWrite_calls, <-(assoc_L (++)) in Hv.
    by destruct (_validateProgress pi _) as [[[]|e] w'].
  - exists false. simpl. by rewrite afterWrite_calls.
  - exists false. simpl. by rewrite afterWrite_calls.
Qed.

Lemma _writePacket_step pw p : preserves transfer_step (_writePacket pw p).
Proof.
  intros w. rewrite _writePacket_run. destruct (_abort (self w)); [done|].
  simpl. destruct (reported (DfuPacketWriter.writePacket p pw)) as [[pi|]|e];
    [|apply afterWrite_step..].
  pose proof (_validateProgress_step pi (afterWrite pw p w)) as Hv.
  destruct (_validateProgress pi _) as [[[]|e] w']; simpl in *;
    (etrans; [apply afterWrite_step|done]).
Qed.

Lemma _writePackets_step pw packets : preserves transfer_step (_writePackets pw packets).
Proof.
  revert pw. induction packets as [|p packets IH]; intros pw w; [done|].
  rewrite _writePackets_cons. pose proof (_writePacket_step pw p w) as Hp.
  destruct (_writePacket pw p w) as [[pw'|e] w']; [|done].
  etrans; [exact Hp|apply IH].
Qed.

(** The packet iterations of [_writePackets]: the rounds of the first
    [k] packets, one after the other, where [k] is the number of
    packets when the chain resolves. *)
Lemma _writePackets_calls pw packets w :
  ∃ k validated,
    k ≤ length packets ∧ length validated = k ∧
    calls (_writePackets pw packets w).2 =
      calls w ++ packetRounds (take k packets) validated ∧
    (∀ pw', (_writePackets pw packets w).1 = Resolved pw' → k = length packets).
Proof.
  revert pw w. induction packets as [|p packets IH]; intros pw w.
  - exists 0, []. simpl. by rewrite app_nil_r.
  - rewrite _writePackets_cons.
    destruct (_writePacket_calls pw p w) as [[_ ->]|[_ [v Hv]]].
    + exists 0, []. simpl. rewrite app_nil_r. split_and!; [lia|done..].
    + destruct (_writePacket pw p w) as [[pw'|e] w'] eqn:Hrun; simpl in Hv.
      * destruct (IH pw' w') as (k & vs & Hk & Hvs & Hcalls & Hres).
        exists (S k), (v :: vs). split_and!; [simpl; lia|by simpl; f_equal| |].
        -- rewrite Hcalls, Hv, <-(assoc_L (++)). done.
        -- intros pw'' Hr. simpl. f_equal. by eapply Hres.
      * exists 1, [v]. split_and!; [simpl; lia|done| |done].
        simpl. rewrite take_0. unfold packetRounds. simpl.
        by rewrite app_nil_r.
Qed.


Lemma _writePackets_writer pw packets w pw' :
  (_writePackets pw packets w).1 = Resolved pw' → pw' = writerAfter pw packets.
Proof.
  revert pw w. induction packets as [|p packets IH]; intros pw w.
  - simpl. congruence.
  - rewrite _writePackets_cons, _writePacket_run.
    destruct (_abort (self w)); [done|]. simpl.
    destruct (reported (DfuPacketWriter.writePacket p pw)) as [[pi|]|e]; [| |done].
    + destruct (_validateProgress pi _) as [[[]|e] w']; [|done]. apply IH.
    + apply IH.
Qed.
End ObjectWriterSteps.

(** ** Segmentation *)

Section SplitArray.
Context {A : Type}.
Implicit Types (data : list A) (M : nat).



Lemma splitArray_nonempty data M : data ≠ [] → splitArray data M ≠ [].
Proof. by destruct data. Qed.
End SplitArray.

(** ** [writeObject] *)

Section WriteObject.
Context `{DfuConstants} `{IntArrayConv} `{DfuPacketWriter.Interface W}.
Implicit Types (w : World) (pw : W) (p data : list Z) (pi : ProgressInfo).

(** The two exits of [writeObject]. *)
Lemma writeObject_run data offset crc32 w :
  writeObject data offset crc32 w =
  match _writePackets (_createPacketWriter offset crc32 (self w))
          (splitArray data (_mtuSize (self w))) (startListening w).2 with
  | (Resolved pw, w') =>
      (Resolved {| offset := DfuPacketWriter.getOffset pw;
                   crc32 := DfuPacketWriter.getCrc32 pw |},
       (stopListening w').2)
  | (Rejected e, w') => (Rejected e, (stopListening w').2)
  end.
Proof.
  unfold writeObject. rewrite bind_run. unfold startListening at 1.
  rewrite perform_run. unfold then_catch.
  by destruct (_writePackets _ _ _) as [[pw|e] w'].
Qed.

Lemma stopListening_calls w :
  calls (stopListening w).2 = calls w ++ [AdapterRemoveListener].
Proof. reflexivity. Qed.

Lemma written_app cs1 cs2 : written (cs1 ++ cs2) = written cs1 ++ written cs2.
Proof. apply omap_app. Qed.

Lemma written_packetRounds packets validated :
  length validated = length packets →
  written (packetRounds packets validated) = packets.
Proof.
  revert validated. induction packets as [|p packets IH]; intros [|v vs] Hlen;
    simplify_eq/=; [done|].
  unfold packetRounds. simpl. destruct v; simpl; f_equal; by apply IH.
Qed.


(** C8: whatever the outcome of [writeObject], the call registers the
    queue's callback once, then makes only transfer calls, and its
    last call, made before the outcome is passed on, removes the
    callback: one [startListening], one [stopListening].  The adapter
    holds as many registrations afterwards as before, and the buffer
    is empty. *)
Theorem writeObject_stops_listening data offset crc32 w :
  let run := writeObject data offset crc32 w in
  ∃ transfer,
    calls run.2 = calls w ++ [AdapterOn] ++ transfer ++ [AdapterRemoveListener] ∧
    Forall transfer_call transfer ∧
    listeners run.2 = listeners w ∧
    buffer run.2 = [].
Proof.
  intros run. unfold run. rewrite writeObject_run.
  destruct (_writePackets_step (_createPacketWriter offset crc32 (self w))
              (splitArray data (_mtuSize (self w))) (startListening w).2)
    as ((cs & Hcs & Hall) & Hl & _).
  exists cs.
  destruct (_writePackets _ _ _) as [[pw|e] w']; cbn [snd] in *;
    rewrite stopListening_calls, Hcs; simpl; rewrite Hl; simpl;
    by rewrite <-!(assoc_L (++)).
Qed.
End WriteObject.

Section Transfer.
Context `{DfuConstants} `{IntArrayConv} `{DfuPacketWriter.Interface W}.
Implicit Types (w : World) (pw : W) (p data : list Z) (pi : ProgressInfo).

Lemma _writePackets_app pw pre rest w :
  _writePackets pw (pre ++ rest) w =
  match _writePackets pw pre w with
  | (Resolved pw', w') => _writePackets pw' rest w'
  | (Rejected e, w') => (Rejected e, w')
  end.
Proof.
  revert pw w. induction pre as [|p pre IH]; intros pw w; [done|].
  simpl. rewrite !_writePackets_cons.
  destruct (_writePacket pw p w) as [[pw'|e] w']; [apply IH|done].
Qed.

Lemma _writePacket_aborted pw p w :
  _abort (self w) = true → _writePacket pw p w = (Rejected aborted, w).
Proof. intros Ha. by rewrite _writePacket_run, Ha. Qed.

Lemma writeObject_aborted data offset crc32 w :
  _abort (self w) = true →
  splitArray data (_mtuSize (self w)) ≠ [] →
  writeObject data offset crc32 w =
  (Rejected aborted, (stopListening (startListening w).2).2).
Proof.
  intros Ha Hne. rewrite writeObject_run.
  destruct (splitArray data _) as [|p packets]; [done|].
  by rewrite _writePackets_cons, _writePacket_aborted.
Qed.

(** C7 (amended): the abort flag is checked at the start of every
    packet iteration, before the packet is handed to the packet
    writer.  When [abort()] has been called before a [writeObject]
    call whose data yield at least one packet, the call is rejected
    with [Aborted] and writes no packet; the flag is not reset, so
    every later call whose data yield at least one packet is also
    rejected with [Aborted] without writing a packet. *)
Theorem abort_stops_every_call pw p (requests : list (list Z * Z * Z)) w :
  _abort (self w) = true →
  Forall (λ request, splitArray request.1.1 (_mtuSize (self w)) ≠ []) requests →
  let run := writeObjects requests w in
  _writePacket pw p w = (Rejected aborted, w) ∧
  length run.1 = length requests ∧
  Forall (λ r, r = Rejected aborted) run.1 ∧
  written (calls run.2) = written (calls w) ∧
  _abort (self run.2) = true.
Proof.
  intros Ha Hreq run. split; [by apply _writePacket_aborted|].
  unfold run. clear run pw p.
  revert w Ha Hreq. induction requests as [|[[data offset] crc32] requests IH];
    intros w Ha Hreq; [done|].
  apply Forall_cons in Hreq as [Hdata Hreq]. simpl in Hdata.
  simpl. rewrite writeObject_aborted by done.
  destruct (IH (stopListening (startListening w).2).2) as (Hlen & Hall & Hw & Ha');
    [done..|].
  destruct (writeObjects requests _) as [rs w'']. simpl in *.
  split_and!; [by f_equal|by constructor| |done].
  rewrite Hw, !written_app. simpl. by rewrite !app_nil_r.
Qed.

(** C9: [writeObject(data, offset, crc32)] starts the chain of packet
    writes from a packet writer whose running state is the given
    offset and CRC32, and the outcome of the call is the failure of
    the chain or, on success, the offset and CRC32 of the packet
    writer after the last packet. *)
Theorem writeObject_resumes_and_reports `{!RunningState W} data offset crc32 w :
  let packetWriter := _createPacketWriter offset crc32 (self w) in
  let packets := splitArray data (_mtuSize (self w)) in
  DfuPacketWriter.getOffset packetWriter = offset ∧
  DfuPacketWriter.getCrc32 packetWriter = crc32 ∧
  (writeObject data offset crc32 w).1 =
    match (_writePackets packetWriter packets (startListening w).2).1 with
    | Resolved _ =>
        Resolved {| offset := DfuPacketWriter.getOffset (writerAfter packetWriter packets);
                    crc32 := DfuPacketWriter.getCrc32 (writerAfter packetWriter packets) |}
    | Rejected e => Rejected e
    end.
Proof.
  intros pw0 packets. split_and!.
  - unfold pw0, _createPacketWriter.
    by rewrite getOffset_setPrn, getOffset_setCrc32, getOffset_setOffset.
  - unfold pw0, _createPacketWriter.
    by rewrite getCrc32_setPrn, getCrc32_setCrc32.
  - rewrite writeObject_run. fold pw0. fold packets.
    pose proof (_writePackets_writer pw0 packets (startListening w).2) as Hpw.
    destruct (_writePackets _ _ _) as [[pw|e] w']; [|done].
    simpl in *. by rewrite (Hpw pw eq_refl).
Qed.

(** C10: when the response to a checkpoint disagrees with the local
    expectation on both the offset and the CRC32, the error is
    [InvalidOffset] and not [InvalidCrc]: the offset is validated
    first, and once that check has failed the CRC32 check has no part
    in the outcome. *)
Theorem offset_checked_before_crc pi w v w' :
  readNext CALCULATE_CRC w = (Resolved v, w') →
  arrayToInt (slice 3 7 v) ≠ offset pi →
  arrayToInt (slice 7 11 v) ≠ crc32 pi →
  _validateProgress pi w =
    (Rejected (invalidOffset (arrayToInt (slice 3 7 v)) (offset pi)), w') ∧
  failure_code (_validateProgress pi w).1 = Some INVALID_OFFSET ∧
  failure_code (_validateProgress pi w).1 ≠ Some INVALID_CRC ∧
  ∀ crc, (_validateOffset v (offset pi);; _validateCrc32 v crc) w' =
         _validateOffset v (offset pi) w'.
Proof.
  intros Hread Hoff Hcrc.
  assert (_validateProgress pi w =
    (Rejected (invalidOffset (arrayToInt (slice 3 7 v)) (offset pi)), w')) as ->.
  { rewrite _validateProgress_run, Hread. unfold checkpointVerdict.
    by rewrite bool_decide_eq_true_2. }
  split_and!; [done..|].
  intros crc. rewrite bind_run. unfold _validateOffset.
  by rewrite bool_decide_eq_true_2.
Qed.

(** C3 (amended): when the packet writer reports a checkpoint for a
    packet, the object writer reads the next [CALCULATE_CRC] response
    and decodes the reported offset from payload bytes [3..7) and the
    reported CRC32 from bytes [7..11) with [arrayToInt].  If the
    decoded offset differs from the expected offset, the transfer
    fails with [InvalidOffset]; if the decoded offset agrees and the
    decoded CRC32 differs from the expected CRC32, it fails with
    [InvalidCrc]; after either failure no further packet is written. *)
Theorem checkpoint_mismatch_fails_transfer
    data startOffset startCrc32 w pre p rest pw w1 pi v w2 :
  splitArray data (_mtuSize (self w)) = pre ++ p :: rest →
  _writePackets (_createPacketWriter startOffset startCrc32 (self w)) pre
    (startListening w).2 = (Resolved pw, w1) →
  _abort (self w1) = false →
  reported (DfuPacketWriter.writePacket p pw) = Resolved (Some pi) →
  readNext CALCULATE_CRC (afterWrite pw p w1) = (Resolved v, w2) →
  let run := writeObject data startOffset startCrc32 w in
  let responseOffset := arrayToInt (slice 3 7 v) in
  let responseCrc := arrayToInt (slice 7 11 v) in
  calls w2 = calls w1 ++ [WritePacket p; ReadNext CALCULATE_CRC] ∧
  (responseOffset ≠ offset pi →
   run = (Rejected (invalidOffset responseOffset (offset pi)), (stopListening w2).2)) ∧
  (responseOffset = offset pi → responseCrc ≠ crc32 pi →
   run = (Rejected (invalidCrc responseCrc (crc32 pi)), (stopListening w2).2)) ∧
  (responseOffset ≠ offset pi ∨ responseCrc ≠ crc32 pi →
   written (calls run.2) = written (calls w) ++ pre ++ [p]).
Proof.
  intros Hsplit Hpre Ha Hrep Hread run responseOffset responseCrc.
  assert (calls w2 = calls w1 ++ [WritePacket p; ReadNext CALCULATE_CRC]) as Hcalls.
  { pose proof (readNext_calls CALCULATE_CRC (afterWrite pw p w1)) as Hc.
    rewrite Hread, afterWrite_calls, <-(assoc_L (++)) in Hc. exact Hc. }
  assert (written (calls w1) = written (calls w) ++ pre) as Hwritten.
  { destruct (_writePackets_calls (_createPacketWriter startOffset startCrc32 (self w))
                pre (startListening w).2) as (k & vs & _ & Hvs & Hc & Hres).
    rewrite Hpre in Hc, Hres. simpl in Hc, Hres.
    rewrite (Hres pw eq_refl), take_ge in Hc by done.
    rewrite Hc, !written_app, written_packetRounds, app_nil_r; [done|].
    rewrite Hvs. by eapply Hres. }
  assert (∀ e, checkpointVerdict v pi = Rejected e →
               run = (Rejected e, (stopListening w2).2)) as Hfail.
  { intros e He. unfold run.
    rewrite writeObject_run, Hsplit, _writePackets_app, Hpre,
      _writePackets_cons, _writePacket_run, Ha.
    simpl. rewrite Hrep, _validateProgress_run, Hread, He. done. }
  split_and!; [done|..].
  - intros Hoff. apply Hfail. unfold checkpointVerdict.
    by rewrite bool_decide_eq_true_2.
  - intros Hoff Hcrc. apply Hfail. unfold checkpointVerdict.
    rewrite bool_decide_eq_false_2 by (intros Hne; by apply Hne).
    by rewrite bool_decide_eq_true_2.
  - intros Hmis.
    assert (∃ e, checkpointVerdict v pi = Rejected e) as [e He].
    { unfold checkpointVerdict. repeat case_bool_decide; eauto.
      destruct Hmis; done. }
    rewrite (Hfail e He). cbn [snd].
    rewrite stopListening_calls, Hcalls, !written_app, Hwritten. simpl.
    by rewrite app_nil_r, <-(assoc_L (++)).
Qed.
End Transfer.

(** ** The reference collaborators *)

Lemma cadenceWriter_running_state latency :
  @RunningState CadenceWriter (cadenceWriter latency).
Proof. by split. Qed.

(** ** The classes at work *)

Section Runs.
Local Existing Instance secureDfuConstants.
Local Existing Instance littleEndianConv.
Local Existing Instance exampleLink.

(** 45 bytes, MTU 20, no checkpoints: packets of 20, 20 and 5 bytes,
    and the call resolves with offset 45. *)
Example three_packets :
  let run := writeObject (take 45 firmware) 0 0 (exampleWorld exampleWriter [] 0 []) in
  length <$> written (calls run.2) = [20; 20; 5] ∧
  run.1 = Resolved {| offset := 45; crc32 := firmwareCrc 45 |}.
Proof. by vm_compute. Qed.

(** Checkpoints after every packet, all confirmed by the device. *)
Example validated_transfer :
  let events := answers (crcNotification 40 (firmwareCrc 40)) ++
    [(13%N, CharacteristicValueChanged (crcNotification 60 (firmwareCrc 60)))] in
  let run := writeObject firmware 0 0 (exampleWorld checkingWriter [] 0 events) in
  run.1 = Resolved {| offset := 60; crc32 := firmwareCrc 60 |} ∧
  calls run.2 =
    [AdapterOn] ++
    packetRounds (splitArray firmware 20) [true; true; true] ++
    [AdapterRemoveListener].
Proof. by vm_compute. Qed.

(** A transfer resumed at offset 20 checks against offset 40 next. *)
Example resumed_transfer :
  let events :=
    [(3%N, CharacteristicValueChanged (crcNotification 40 (firmwareCrc 40)))] in
  let run := writeObject (take 20 (drop 20 firmware)) 20 (firmwareCrc 20)
               (exampleWorld checkingWriter [] 0 events) in
  run.1 = Resolved {| offset := 40; crc32 := firmwareCrc 40 |}.
Proof. by vm_compute. Qed.

(** An answer that arrives 130 ms after [readNext] was called is found by
    the poll at 140 ms; one already buffered is returned at once. *)
Example late_answer :
  let answer := crcNotification 20 0 in
  let late := readNext 3 (exampleWorld exampleWriter [foreignNotification] 1
                            [(130%N, CharacteristicValueChanged answer)]) in
  let early := readNext 3 (exampleWorld exampleWriter [answer] 1 []) in
  late.1 = Resolved (value answer) ∧ clock late.2 = 140%N ∧
  early.1 = Resolved (value answer) ∧ clock early.2 = 0%N.
Proof. by vm_compute. Qed.

(** The second checkpoint reports a wrong offset. *)
Example invalid_offset :
  let run := writeObject firmware 0 0
               (exampleWorld checkingWriter [] 0
                  (answers (crcNotification 41 (firmwareCrc 40)))) in
  run.1 = Rejected (invalidOffset 41 40) ∧
  length (written (calls run.2)) = 2 ∧
  listeners run.2 = 0.
Proof. by vm_compute. Qed.

(** The second checkpoint reports a wrong CRC32 only. *)
Example invalid_crc :
  let run := writeObject firmware 0 0
               (exampleWorld checkingWriter [] 0 (answers (crcNotification 40 0))) in
  run.1 = Rejected (invalidCrc 0 (firmwareCrc 40)) ∧
  length (written (calls run.2)) = 2 ∧
  listeners run.2 = 0.
Proof. by vm_compute. Qed.

(** The device never answers the first checkpoint. *)
Example no_answer :
  let run := writeObject firmware 0 0 (exampleWorld checkingWriter [] 0 []) in
  run.1 = Rejected (timeoutError 3) ∧
  clock run.2 = 20005%N ∧
  calls run.2 =
    [AdapterOn; WritePacket (take 20 firmware); ReadNext 3; AdapterRemoveListener].
Proof. by vm_compute. Qed.

(** The device answers the first checkpoint with a result code 5, or
    with a response to another operation. *)
Example device_error :
  let run event := writeObject firmware 0 0
    (exampleWorld checkingWriter [] 0 [(3%N, CharacteristicValueChanged event)]) in
  (run failedResponse).1 =
    Rejected (createError COMMAND_ERROR "Operation 3 returned error code 5") ∧
  (run otherOpcodeResponse).1 =
    Rejected (createError UNEXPECTED_NOTIFICATION
                "Got unexpected response. Expected code 96, but got code 4.") ∧
  length (written (calls (run failedResponse).2)) = 1 ∧
  length (written (calls (run otherOpcodeResponse).2)) = 1.
Proof. by vm_compute. Qed.

(** The owner calls [abort()] while the second packet is on its way:
    the third packet is not written. *)
Example abort_during_transfer :
  let run := writeObject firmware 0 0
               (exampleWorld exampleWriter [] 0 [(7%N, AbortCall)]) in
  run.1 = Rejected aborted ∧
  written (calls run.2) = take 2 (splitArray firmware 20).
Proof. by vm_compute. Qed.

(** The device does not answer the checkpoint of a first transfer, and
    answers that of a second one.  The poller that the first [readNext]
    has left behind looks at the buffer at 20065 ms, the second call at
    20070 ms: an answer that arrives at 20060 ms is taken by the poller
    and the second transfer times out as well; one that arrives at
    20068 ms is returned to the call. *)
Example answer_lost_to_left_over_poller :
  let transfers := [(take 20 firmware, 0, 0); (take 20 firmware, 0, 0)]%Z in
  let run t := writeObjects transfers
    (exampleWorld checkingWriter [] 0
       [(t, CharacteristicValueChanged (crcNotification 20 (firmwareCrc 20)))]) in
  (run 20060%N).1 = [Rejected (timeoutError 3); Rejected (timeoutError 3)] ∧
  (run 20068%N).1 =
    [Rejected (timeoutError 3);
     Resolved {| offset := 20; crc32 := firmwareCrc 20 |}].
Proof. by vm_compute. Qed.
End Runs.

(** ** The theorems at concrete inputs *)

Section Instances.
Local Existing Instance secureDfuConstants.
Local Existing Instance littleEndianConv.
Local Existing Instance exampleLink.

(** C1, as stated, fails when a control-point response to another
    operation is buffered ahead of the first matching notification:
    the call is rejected instead of returning the match. *)
Lemma readNext_first_match_counterexample :
  let w := exampleWorld exampleWriter
             [otherOpcodeResponse; crcNotification 20 0] 0 [] in
  list_find (matches (control_point w) 3) (buffer w) =
    Some (1, crcNotification 20 0) ∧
  (readNext 3 w).1 =
    Rejected (createError UNEXPECTED_NOTIFICATION
                "Got unexpected response. Expected code 96, but got code 4.") ∧
  (readNext 3 w).1 ≠ Resolved (value (crcNotification 20 0)).
Proof. by vm_compute. Qed.

Lemma readNext_returns_first_match_witness :
  let w := exampleWorld exampleWriter
             [foreignNotification; unmarkedNotification;
              crcNotification 20 0; failedResponse] 0 [] in
  readNext 3 w =
  (Resolved (crcResponse 20 0),
   with_self (with_notifications [failedResponse]) (record_call (ReadNext 3) w)).
Proof.
  intros w.
  apply (readNext_returns_first_match 3 w 2 (crcNotification 20 0)).
  - vm_compute. reflexivity.
  - compute_done.
Defined.

Lemma readNext_command_error_witness :
  let w := exampleWorld exampleWriter
             [foreignNotification; failedResponse; crcNotification 20 0] 0 [] in
  readNext 3 w =
  (Rejected (createError COMMAND_ERROR "Operation 3 returned error code 5"),
   with_self (with_notifications [crcNotification 20 0])
     (record_call (ReadNext 3) w)).
Proof.
  intros w.
  destruct (readNext_command_error 3 "control-point" failedResponse)
    as (_ & Hrun & _).
  - reflexivity.
  - reflexivity.
  - reflexivity.
  - vm_compute. discriminate.
  - refine (eq_trans (Hrun w [foreignNotification] [crcNotification 20 0] _ _ _) _).
    + reflexivity.
    + reflexivity.
    + compute_done.
    + by vm_compute.
Defined.

Lemma readNext_unexpected_notification_witness :
  let w := exampleWorld exampleWriter
             [unmarkedNotification; otherOpcodeResponse; crcNotification 20 0] 0 [] in
  readNext 3 w =
  (Rejected (createError UNEXPECTED_NOTIFICATION
               "Got unexpected response. Expected code 96, but got code 4."),
   with_self (with_notifications [crcNotification 20 0])
     (record_call (ReadNext 3) w)).
Proof.
  intros w.
  destruct (readNext_unexpected_notification 3 "control-point" otherOpcodeResponse)
    as [_ Hrun].
  - reflexivity.
  - reflexivity.
  - vm_compute. discriminate.
  - refine (eq_trans (Hrun w [unmarkedNotification] [crcNotification 20 0] _ _ _) _).
    + reflexivity.
    + reflexivity.
    + compute_done.
    + by vm_compute.
Defined.

(** C4, as stated, fails when a control-point response to another
    operation is buffered or arrives: no notification that matches
    arrives at all, yet the call is rejected at once, or after 100 ms,
    and not with [NotificationTimeout]. *)
Lemma readNext_timeout_counterexample :
  let unexpected := Rejected (createError UNEXPECTED_NOTIFICATION
    "Got unexpected response. Expected code 96, but got code 4.") in
  let buffered := exampleWorld exampleWriter [otherOpcodeResponse] 1 [] in
  let arriving := exampleWorld exampleWriter [] 1
    [(100%N, CharacteristicValueChanged otherOpcodeResponse)] in
  Forall (λ w, Forall (λ n, ¬ matches (control_point w) 3 n)
                 (buffer w ++ arrivals (schedule w))) [buffered; arriving] ∧
  (readNext 3 buffered).1 = unexpected ∧
  clock (readNext 3 buffered).2 = 0%N ∧
  (readNext 3 arriving).1 = unexpected ∧
  clock (readNext 3 arriving).2 = 100%N ∧
  unexpected ≠ Rejected (timeoutError 3).
Proof. split; [compute_done|by vm_compute]. Qed.

Lemma readNext_timeout_witness :
  let w := exampleWorld exampleWriter [foreignNotification; unmarkedNotification] 1
             [(30%N, CharacteristicValueChanged foreignNotification);
              (500%N, AbortCall);
              (19990%N, CharacteristicValueChanged unmarkedNotification);
              (20001%N, CharacteristicValueChanged (crcNotification 20 0))] in
  ∃ w', readNext 3 w = (Rejected (timeoutError 3), w') ∧ clock w' = 20000%N.
Proof.
  intros w. apply (readNext_timeout 3 w).
  - compute_done.
  - unfold quiet. compute_done.
Defined.


(** C7, as stated, fails for empty data: no packet iteration checks
    the flag, and the call resolves although [abort()] was called
    before it. *)
Lemma abort_before_empty_transfer_counterexample :
  let w := exampleWorld (abort exampleWriter) [] 0 [] in
  _abort (self w) = true ∧
  (writeObject [] 0 0 w).1 = Resolved {| offset := 0; crc32 := 0 |} ∧
  (writeObject [] 0 0 w).1 ≠ Rejected aborted.
Proof. by vm_compute. Qed.

Lemma abort_stops_every_call_witness :
  let w := exampleWorld (abort exampleWriter) [] 0 [] in
  let run := writeObjects [(firmware, 0, 0); (take 45 firmware, 20, 7)]%Z w in
  run.1 = [Rejected aborted; Rejected aborted] ∧
  written (calls run.2) = [].
Proof.
  intros w run.
  destruct (abort_stops_every_call (DfuPacketWriter.new "packet") [1; 2; 3]%Z
              [(firmware, 0, 0); (take 45 firmware, 20, 7)]%Z w)
    as (_ & _ & _ & Hwritten & _).
  - reflexivity.
  - repeat constructor; vm_compute; discriminate.
  - split; [by vm_compute|exact Hwritten].
Defined.

Lemma writeObject_resumes_and_reports_witness :
  let data := take 20 (drop 20 firmware) in
  let w := exampleWorld exampleWriter [] 0 [] in
  DfuPacketWriter.getOffset (_createPacketWriter 20 (firmwareCrc 20) (self w)) = 20%Z ∧
  DfuPacketWriter.getCrc32 (_createPacketWriter 20 (firmwareCrc 20) (self w)) = firmwareCrc 20 ∧
  (writeObject data 20 (firmwareCrc 20) w).1 =
    Resolved {| offset := 40; crc32 := firmwareCrc 40 |}.
Proof.
  intros data w.
  destruct (writeObject_resumes_and_reports
              (RunningState0 := cadenceWriter_running_state 5)
              data 20 (firmwareCrc 20) w) as (Hoff & Hcrc & Hrun).
  split_and!; [exact Hoff|exact Hcrc|].
  refine (eq_trans Hrun _). by vm_compute.
Defined.

Lemma offset_checked_before_crc_witness :
  let w := exampleWorld exampleWriter [crcNotification 21 0] 0 [] in
  let expected := {| offset := 20; crc32 := firmwareCrc 20 |} in
  failure_code (_validateProgress expected w).1 = Some INVALID_OFFSET.
Proof.
  intros w expected.
  destruct (offset_checked_before_crc expected w (crcResponse 21 0)
              (with_self (with_notifications []) (record_call (ReadNext 3) w)))
    as (_ & Hcode & _).
  - by vm_compute.
  - vm_compute. discriminate.
  - vm_compute. discriminate.
  - exact Hcode.
Defined.

(** C3, as stated, fails when the response disagrees on both values:
    the decoded CRC32 differs from the expected CRC32, yet the
    transfer does not fail with [InvalidCrc]. *)
Lemma crc_mismatch_counterexample :
  let w := exampleWorld checkingWriter [] 0
             [(3%N, CharacteristicValueChanged (crcNotification 21 0))] in
  let packet := take 20 firmware in
  let expected := {| offset := 20; crc32 := firmwareCrc 20 |} in
  reported (DfuPacketWriter.writePacket packet (_createPacketWriter 0 0 (self w))) =
    Resolved (Some expected) ∧
  arrayToInt (slice 7 11 (crcResponse 21 0)) ≠ crc32 expected ∧
  (writeObject packet 0 0 w).1 = Rejected (invalidOffset 21 20) ∧
  failure_code (writeObject packet 0 0 w).1 ≠ Some INVALID_CRC.
Proof. split_and!; [by vm_compute|vm_compute; discriminate|by vm_compute..]. Qed.

Lemma checkpoint_mismatch_fails_transfer_witness :
  let w := exampleWorld checkingWriter [] 0 (answers (crcNotification 41 0)) in
  let run := writeObject firmware 0 0 w in
  run.1 = Rejected (invalidOffset 41 40) ∧
  written (calls run.2) = take 2 (splitArray firmware 20).
Proof.
  intros w run.
  pose (packets := splitArray firmware 20).
  pose (first := _writePackets (_createPacketWriter 0 0 (self w))
                   (take 1 packets) (startListening w).2).
  destruct (checkpoint_mismatch_fails_transfer firmware 0 0 w
              (take 1 packets) (take 20 (drop 20 firmware)) (drop 2 packets)
              (writerAfter (_createPacketWriter 0 0 (self w)) (take 1 packets))
              first.2
              {| offset := 40; crc32 := firmwareCrc 40 |}
              (crcResponse 41 0)
              (with_self (with_notifications [])
                 (record_call (ReadNext 3)
                    (afterWrite
                       (writerAfter (_createPacketWriter 0 0 (self w)) (take 1 packets))
                       (take 20 (drop 20 firmware)) first.2))))
    as (_ & Hoff & _ & Hwritten).
  - by vm_compute.
  - by vm_compute.
  - by vm_compute.
  - by vm_compute.
  - by vm_compute.
  - split.
    + unfold run. rewrite Hoff; [by vm_compute|vm_compute; discriminate].
    + unfold run. rewrite Hwritten; [by vm_compute|left; vm_compute; discriminate].
Defined.
End Instances.

(** * Further properties of the two classes *)

(** ** The scan *)

Section ScanMore.
Context `{DfuConstants}.
Implicit Types (cp : string) (op : Z) (n : Notification).

Lemma parse_not_null cp op n :
  ¬ discardable cp n → _parseNotification cp op n ≠ Resolved None.
Proof. intros Hn Hp. by apply Hn, (parse_null cp op). Qed.

(** X1: a scan has three outcomes and no other.  Either every buffered
    notification is dropped, the scan returns nothing and the buffer is
    empty; or the scan stops at the first notification that is not
    dropped, its outcome is what [_parseNotification] makes of that
    notification (its payload or a throw), everything ahead of it is
    gone and everything behind it is still buffered. *)
Theorem scan_three_way cp op (buf : list Notification) :
  (Forall (discardable cp) buf ∧
   _findNotification cp op buf = (Resolved None, [])) ∨
  (∃ pre n rest,
     buf = pre ++ n :: rest ∧
     Forall (discardable cp) pre ∧
     ¬ discardable cp n ∧
     _parseNotification cp op n ≠ Resolved None ∧
     _findNotification cp op buf = (_parseNotification cp op n, rest)).
Proof.
  induction buf as [|n buf IH]; [by left|].
  destruct (decide (discardable cp n)) as [Hn|Hn].
  - destruct IH as [[Hall Hfind]|(pre & m & rest & -> & Hpre & Hm & Hp & Hfind)].
    + left. split; [by constructor|].
      simpl. by rewrite (parse_discardable _ _ _ Hn).
    + right. exists (n :: pre), m, rest. split_and!; [done|by constructor|done..|].
      simpl. by rewrite (parse_discardable _ _ _ Hn).
  - right. exists [], n, buf. split_and!; [done|by constructor|done| |].
    + by apply parse_not_null.
    + simpl. pose proof (parse_not_null cp op n Hn) as Hp.
      by destruct (_parseNotification cp op n) as [[v|]|e].
Qed.

(** X2: a control-point payload that is cut short is not reported as
    such.  An empty payload is dropped like a foreign notification; a
    payload that ends after the response marker is an
    [UnexpectedNotification] that names the code [undefined]; one that
    ends after the requested opcode is a [CommandError] with the result
    code [undefined]. *)
Theorem parse_truncated cp op n :
  _instanceId n = cp →
  (value n = [] → _parseNotification cp op n = Resolved None) ∧
  (value n = [RESPONSE] →
   _parseNotification cp op n = Rejected (unexpectedNotification None)) ∧
  (value n = [RESPONSE; op] →
   _parseNotification cp op n = Rejected (commandError op None)).
Proof.
  intros Hid. unfold _parseNotification.
  rewrite bool_decide_eq_false_2 by (intros Hne; by apply Hne).
  split_and!; intros ->; simpl; by repeat case_bool_decide.
Qed.

End ScanMore.

(** ** [readNext] *)

Section ReadNextMore.
Context `{DfuConstants}.
Implicit Types (op : Z) (w : World) (n : Notification).

(** X3: whatever [readNext(opCode)] resolves with is a payload whose
    first three bytes are the response marker, the requested opcode and
    the success code; and it is rejected only with
    [NotificationTimeout], with a [CommandError] for a result code other
    than success, or with an [UnexpectedNotification] for an opcode
    other than the requested one. *)
Theorem readNext_outcomes op w :
  match (readNext op w).1 with
  | Resolved v => successResponse op v
  | Rejected e => readNextError op e
  end.
Proof.
  unfold readNext, _waitForNotification.
  pose proof (wait_outcome op pollInterval
                (N.to_nat ((timeout - 1) / pollInterval)) timeout
                (record_call (ReadNext op) w)) as Hwait.
  destruct (wait _ _ _ _ _) as [[[v|e]|] w']; cbn [fst] in *; [done..|].
  by left.
Qed.

(** *** Arrivals *)

Lemma deliver_listeners evs w : listeners (deliver evs w) = listeners w.
Proof. apply (deliver_step evs w). Qed.

Lemma deliver_control_point evs w : control_point (deliver evs w) = control_point w.
Proof. apply (deliver_step evs w). Qed.

Lemma dispatch_buffer ev w :
  buffer (dispatch ev w) =
  buffer w ++ concat (replicate (listeners w) <$> arrivals [(0%N, ev)]).
Proof.
  destruct ev as [n|]; simpl; by rewrite app_nil_r.
Qed.

Lemma dispatch_listeners ev w : listeners (dispatch ev w) = listeners w.
Proof. by destruct ev. Qed.

Lemma arrivals_cons t ev evs :
  arrivals ((t, ev) :: evs) = arrivals [(0%N, ev)] ++ arrivals evs.
Proof. by destruct ev. Qed.

(** Whatever the left-over pollers do, what is buffered after the
    events is a tail of the old buffer followed by the arrivals. *)
Lemma deliver_all_due_tail evs w :
  Forall (λ tev, (tev.1 ≤ clock w)%N) evs →
  (∃ k, buffer (deliver evs w) =
        drop k (buffer w ++ concat (replicate (listeners w) <$> arrivals evs))) ∧
  schedule (deliver evs w) = [].
Proof.
  revert w. induction evs as [|[t ev] evs IH]; intros w Hdue; cbn [deliver].
  - split; [|done].
    destruct (polled_buffer w _ (stalePolls_polled (clock w + 1) w)) as (k & _ & Hk).
    exists k. simpl. rewrite app_nil_r. exact Hk.
  - apply Forall_cons in Hdue as [Ht Hdue]. simpl in Ht.
    rewrite decide_True by done.
    pose proof (stalePolls_polled t w) as Hp.
    destruct (polled_buffer _ _ Hp) as (j & Hj & Hbuf).
    destruct (IH (dispatch ev (stalePolls t w))) as [[k Hk] Hsched].
    { by rewrite dispatch_clock, (polled_clock _ _ Hp). }
    split; [|done]. exists (j + k).
    rewrite Hk, dispatch_buffer, dispatch_listeners, (polled_listeners _ _ Hp), Hbuf.
    rewrite (arrivals_cons t ev evs), fmap_app, concat_app.
    rewrite <-drop_drop, <-!(assoc_L (++)). f_equal.
    by rewrite drop_app_le.
Qed.

Lemma deliver_all_due evs w :
  pollers w = [] →
  Forall (λ tev, (tev.1 ≤ clock w)%N) evs →
  buffer (deliver evs w) =
    buffer w ++ concat (replicate (listeners w) <$> arrivals evs).
Proof.
  revert w. induction evs as [|[t ev] evs IH]; intros w Hps Hdue; cbn [deliver];
    rewrite ?stalePolls_none by done.
  - simpl. by rewrite app_nil_r.
  - apply Forall_cons in Hdue as [Ht Hdue]. simpl in Ht.
    rewrite decide_True by done.
    rewrite IH; [|by rewrite dispatch_pollers|by rewrite dispatch_clock].
    rewrite dispatch_buffer, dispatch_listeners, (arrivals_cons t ev evs),
      fmap_app, concat_app.
    by rewrite <-!(assoc_L (++)).
Qed.

Lemma concat_replicate_one {A} (l : list A) : concat (replicate 1 <$> l) = l.
Proof. induction l as [|x l IH]; [done|]. simpl. f_equal. exact IH. Qed.

(** X4: notifications are buffered in the order in which the adapter
    emits them, behind what is already buffered.  When the clock has
    reached all scheduled events and the callback is registered once,
    what is buffered afterwards is the old buffer followed by the
    arrived notifications in the order of their arrival, less a front
    part that the rounds of left-over pollers have shifted off
    meanwhile; without such a poller it is all of it.  Nothing is
    left on the schedule. *)
Theorem arrivals_are_buffered_in_order ms w :
  listeners w = 1 →
  Forall (λ tev, (tev.1 ≤ clock w + ms)%N) (schedule w) →
  (∃ k, buffer (sleep ms w).2 = drop k (buffer w ++ arrivals (schedule w))) ∧
  (pollers w = [] → buffer (sleep ms w).2 = buffer w ++ arrivals (schedule w)) ∧
  schedule (sleep ms w).2 = [].
Proof.
  intros Hl Hdue. rewrite sleep_run. cbn [snd].
  destruct (deliver_all_due_tail (schedule w) (with_clock (clock w + ms)%N w))
    as [[k Hk] Hsched]; [done|].
  split_and!; [| |done].
  - exists k. rewrite Hk. simpl. by rewrite Hl, concat_replicate_one.
  - intros Hps. rewrite deliver_all_due by done. simpl.
    by rewrite Hl, concat_replicate_one.
Qed.

Lemma deliver_unsubscribed evs w :
  listeners w = 0 → buffer w = [] → buffer (deliver evs w) = [].
Proof.
  revert w. induction evs as [|[t ev] evs IH]; intros w Hl Hbuf; cbn [deliver].
  - exact (polled_empty w _ (stalePolls_polled (clock w + 1) w) Hbuf).
  - case_decide.
    + pose proof (stalePolls_polled t w) as Hp. apply IH.
      * by rewrite dispatch_listeners, (polled_listeners _ _ Hp).
      * rewrite dispatch_buffer, (polled_listeners _ _ Hp), Hl,
          (polled_empty _ _ Hp Hbuf).
        by destruct ev.
    + exact (polled_empty w _ (stalePolls_polled (clock w + 1) w) Hbuf).
Qed.

Lemma wait_unsubscribed op interval pollsLeft budget w :
  (N.of_nat pollsLeft * interval ≤ budget)%N →
  listeners w = 0 →
  Forall (discardable (control_point w)) (buffer w) →
  ∃ w', wait op interval pollsLeft budget w = (None, w') ∧
        clock w' = (clock w + budget)%N ∧ buffer w' = [].
Proof.
  revert budget w.
  induction pollsLeft as [|k IH]; intros budget w Hk Hl Hbuf; cbn [wait];
    rewrite findNotification_run, find_nothing by done; cbn [fst snd].
  - eexists. split_and!; [done| |].
    + change (clock (with_pollers ?f ?w0)) with (clock w0). by rewrite sleep_clock.
    + change (buffer (with_pollers ?f ?w0)) with (buffer w0).
      rewrite sleep_run. cbn [snd]. by rewrite deliver_unsubscribed.
  - set (w1 := with_self (with_notifications []) w).
    destruct (IH (budget - interval)%N (sleep interval w1).2) as (w' & Hrun & Hclk & Hb).
    + lia.
    + rewrite sleep_run. cbn [snd]. by rewrite deliver_listeners.
    + rewrite sleep_run. cbn [snd]. rewrite deliver_unsubscribed by done.
      by constructor.
    + exists w'. split_and!; [done| |done]. rewrite Hclk, sleep_clock. simpl. lia.
Qed.

Lemma readNext_unsubscribed_aux op w :
  listeners w = 0 →
  Forall (discardable (control_point w)) (buffer w) →
  ∃ w', readNext op w = (Rejected (timeoutError op), w') ∧
        clock w' = (clock w + timeout)%N ∧ buffer w' = [].
Proof.
  intros Hl Hbuf. unfold readNext, _waitForNotification.
  destruct (wait_unsubscribed op pollInterval
              (N.to_nat ((timeout - 1) / pollInterval)) timeout
              (record_call (ReadNext op) w))
    as (w' & Hrun & Hclk & Hb); [by vm_compute|done..|].
  rewrite Hrun. by exists w'.
Qed.

(** X5: a [readNext] on a queue whose callback is not registered with
    the adapter cannot be answered: whatever the adapter emits, nothing
    reaches the buffer, and if the scan drops what is buffered the call
    is rejected with [NotificationTimeout] when the 20 s have passed. *)
Theorem readNext_unsubscribed op w :
  listeners w = 0 →
  Forall (discardable (control_point w)) (buffer w) →
  ∃ w', readNext op w = (Rejected (timeoutError op), w') ∧
        clock w' = (clock w + timeout)%N ∧ buffer w' = [].
Proof. apply readNext_unsubscribed_aux. Qed.

(** X6: [stopListening()] throws away what is buffered, answers
    included.  After it, on a queue that was registered at most once, a
    [readNext] is rejected with [NotificationTimeout] even if a
    successful response to its opcode was buffered before the stop. *)
Theorem stopListening_drops_answers op w :
  listeners w ≤ 1 →
  buffer (stopListening w).2 = [] ∧
  ∃ w', readNext op (stopListening w).2 = (Rejected (timeoutError op), w') ∧
        clock w' = (clock w + timeout)%N.
Proof.
  intros Hl. split; [done|].
  destruct (readNext_unsubscribed_aux op (stopListening w).2) as (w' & Hrun & Hclk & _).
  - simpl. lia.
  - by constructor.
  - by exists w'.
Qed.

(** *** Polling *)

Lemma deliver_buffer_grows evs w :
  pollers w = [] → ∃ more, buffer (deliver evs w) = buffer w ++ more.
Proof.
  revert w. induction evs as [|[t ev] evs IH]; intros w Hps; cbn [deliver];
    rewrite ?stalePolls_none by done.
  - exists []. by rewrite app_nil_r.
  - case_decide; [|exists []; by rewrite app_nil_r].
    destruct (IH (dispatch ev w)) as [more Hmore]; [by rewrite dispatch_pollers|].
    rewrite Hmore.
    destruct ev as [n|]; [|by exists more].
    exists (replicate (listeners w) n ++ more).
    change (buffer (dispatch (CharacteristicValueChanged n) w))
      with (buffer w ++ replicate (listeners w) n).
    by rewrite (assoc_L (++)).
Qed.

Lemma dispatch_harmless cp ev w :
  control_point w = cp → harmless cp ev →
  Forall (discardable cp) (buffer w) →
  Forall (discardable cp) (buffer (dispatch ev w)).
Proof.
  intros Hcp Hev Hbuf. destruct ev as [n|]; [|done].
  change (buffer (dispatch (CharacteristicValueChanged n) w))
    with (buffer w ++ replicate (listeners w) n).
  apply Forall_app. split; [done|]. by apply Forall_replicate.
Qed.

Lemma deliver_blocked cp pre t n later w :
  pollers w = [] →
  control_point w = cp →
  (clock w < t)%N →
  ahead cp t pre →
  Forall (discardable cp) (buffer w) →
  ∃ pre',
    schedule (deliver (pre ++ (t, CharacteristicValueChanged n) :: later) w) =
      pre' ++ (t, CharacteristicValueChanged n) :: later ∧
    ahead cp t pre' ∧
    Forall (discardable cp)
      (buffer (deliver (pre ++ (t, CharacteristicValueChanged n) :: later) w)).
Proof.
  revert w. induction pre as [|[t0 ev] pre IH]; intros w Hps Hcp Hclk Hpre Hbuf;
    cbn [app deliver]; rewrite ?stalePolls_none by done.
  - rewrite decide_False by lia. exists []. by split_and!.
  - apply Forall_cons in Hpre as [[Ht0 Hev] Hpre]. simpl in Ht0, Hev.
    case_decide.
    + apply IH; [by destruct ev|by destruct ev|by destruct ev|done|].
      by apply dispatch_harmless.
    + exists ((t0, ev) :: pre). split_and!; [done| |done].
      by apply Forall_cons.
Qed.

Lemma deliver_arrives cp pre t n later w :
  pollers w = [] →
  control_point w = cp →
  listeners w ≠ 0 →
  (t ≤ clock w)%N →
  ahead cp t pre →
  Forall (discardable cp) (buffer w) →
  ∃ front back,
    buffer (deliver (pre ++ (t, CharacteristicValueChanged n) :: later) w) =
      front ++ n :: back ∧
    Forall (discardable cp) front.
Proof.
  revert w. induction pre as [|[t0 ev] pre IH]; intros w Hps Hcp Hl Hclk Hpre Hbuf;
    cbn [app deliver]; rewrite ?stalePolls_none by done.
  - rewrite decide_True by done.
    destruct (deliver_buffer_grows later
                (dispatch (CharacteristicValueChanged n) w)) as [more Hmore];
      [done|].
    rewrite Hmore.
    change (buffer (dispatch (CharacteristicValueChanged n) w))
      with (buffer w ++ replicate (listeners w) n).
    destruct (listeners w) as [|l]; [done|]. simpl.
    exists (buffer w), (replicate l n ++ more).
    by rewrite <-(assoc_L (++)).
  - apply Forall_cons in Hpre as [[Ht0 Hev] Hpre]. simpl in Ht0, Hev.
    rewrite decide_True by lia.
    apply IH; [by destruct ev|by destruct ev|by destruct ev|by destruct ev|done|].
    by apply dispatch_harmless.
Qed.

Lemma wait_found op interval pollsLeft budget w front n back :
  buffer w = front ++ n :: back →
  Forall (discardable (control_point w)) front →
  matches (control_point w) op n →
  wait op interval pollsLeft budget w =
  (Some (Resolved (value n)), with_self (with_notifications back) w).
Proof.
  intros Hbuf Hfront Hn.
  destruct pollsLeft; cbn [wait];
    rewrite findNotification_run, Hbuf, find_skip by done; simpl;
    by rewrite (parse_matches _ _ _ Hn).
Qed.

Lemma wait_answered op interval (polls : nat) pollsLeft budget w pre t n later :
  polls ≤ pollsLeft →
  pollers w = [] →
  listeners w ≠ 0 →
  Forall (discardable (control_point w)) (buffer w) →
  schedule w = pre ++ (t, CharacteristicValueChanged n) :: later →
  ahead (control_point w) t pre →
  matches (control_point w) op n →
  (t ≤ clock w + interval * N.of_nat (S polls))%N →
  (polls ≠ 0 → (clock w + interval * N.of_nat polls < t)%N) →
  ∃ w', wait op interval (S pollsLeft) budget w = (Some (Resolved (value n)), w') ∧
        clock w' = (clock w + interval * N.of_nat (S polls))%N.
Proof.
  revert pollsLeft budget w pre.
  induction polls as [|j IH]; intros k budget w pre Hk Hps Hl Hbuf Hsched Hpre Hn Hle Hlt;
    rewrite wait_repolls by done;
    set (w0 := with_self (with_notifications []) w);
    rewrite sleep_run; cbn [snd];
    change (schedule w0) with (schedule w); rewrite Hsched.
  - destruct (deliver_arrives (control_point w) pre t n later
                (with_clock (clock w0 + interval)%N w0))
      as (front & back & Hdel & Hfront);
      [done|done|done|simpl; lia|done|by constructor|].
    eexists. split.
    + apply wait_found with (front := front); [exact Hdel| |].
      * by rewrite deliver_control_point.
      * by rewrite deliver_control_point.
    + simpl. rewrite deliver_clock. simpl. lia.
  - destruct (deliver_blocked (control_point w) pre t n later
                (with_clock (clock w0 + interval)%N w0))
      as (pre' & Hsched' & Hpre' & Hbuf'); [done|done| |done|by constructor|].
    { simpl. lia. }
    destruct k as [|k]; [lia|].
    destruct (IH k (budget - interval)%N
                (deliver (pre ++ (t, CharacteristicValueChanged n) :: later)
                   (with_clock (clock w0 + interval)%N w0)) pre')
      as (w' & Hrun & Hclk).
    + lia.
    + by apply deliver_no_pollers.
    + by rewrite deliver_listeners.
    + by rewrite deliver_control_point.
    + done.
    + by rewrite deliver_control_point.
    + by rewrite deliver_control_point.
    + rewrite deliver_clock. simpl. lia.
    + intros Hj. rewrite deliver_clock. simpl. lia.
    + exists w'. split; [done|]. rewrite Hclk, deliver_clock. simpl. lia.
Qed.

Lemma pollsUntil_spec calledAt t :
  (t ≤ calledAt + pollInterval * pollsUntil calledAt t)%N ∧
  (pollsUntil calledAt t ≠ 1%N →
   (calledAt + pollInterval * (pollsUntil calledAt t - 1) < t)%N) ∧
  (1 ≤ pollsUntil calledAt t)%N.
Proof.
  unfold pollsUntil, pollInterval.
  assert (20 ≠ 0)%N as H20 by done.
  pose proof (N.div_mod (t - calledAt + 20 - 1) 20 H20) as Hdiv.
  pose proof (N.mod_lt (t - calledAt + 20 - 1) 20 H20) as Hmod.
  set (q := ((t - calledAt + 20 - 1) / 20)%N) in *.
  set (r := ((t - calledAt + 20 - 1) mod 20)%N) in *.
  clearbody q r. split_and!; lia.
Qed.

(** X7: on a queue without a left-over poller, an answer is returned by
    the first poll that sees it.  When no earlier [readNext] has timed
    out and left its poller behind, the callback is registered,
    everything buffered or arriving before a successful response to the
    opcode is dropped by the scan, and that response arrives at time
    [t], then [readNext] resolves with its payload at the first poll of
    the 20 ms grid of the call (the first one 20 ms after the call)
    that comes at or after [t]: never before the arrival, and less than
    20 ms after it if it arrives after the call; provided that poll
    comes before the 20 s have passed. *)
Theorem readNext_answered_at_next_poll op w pre t n later :
  pollers w = [] →
  listeners w ≠ 0 →
  Forall (discardable (control_point w)) (buffer w) →
  schedule w = pre ++ (t, CharacteristicValueChanged n) :: later →
  ahead (control_point w) t pre →
  matches (control_point w) op n →
  (pollInterval * pollsUntil (clock w) t < timeout)%N →
  ∃ w', readNext op w = (Resolved (value n), w') ∧
        clock w' = (clock w + pollInterval * pollsUntil (clock w) t)%N ∧
        (t ≤ clock w')%N ∧
        (clock w < t → clock w' < t + pollInterval)%N.
Proof.
  intros Hps Hl Hbuf Hsched Hpre Hn Hin.
  destruct (pollsUntil_spec (clock w) t) as (Hle & Hlt & Hpos).
  unfold readNext, _waitForNotification.
  replace (N.to_nat ((timeout - 1) / pollInterval)) with (S 998) by by vm_compute.
  destruct (wait_answered op pollInterval
              (N.to_nat (pollsUntil (clock w) t - 1)) 998 timeout
              (record_call (ReadNext op) w) pre t n later)
    as (w' & Hrun & Hclk); [|done..| | |].
  - unfold pollInterval, timeout in Hin. lia.
  - change (clock (record_call _ w)) with (clock w).
    unfold pollInterval in *. lia.
  - change (clock (record_call _ w)) with (clock w). intros Hne.
    rewrite N2Nat.id. apply Hlt. lia.
  - rewrite Hrun. exists w'.
    change (clock (record_call _ w)) with (clock w) in Hclk.
    assert (clock w' = (clock w + pollInterval * pollsUntil (clock w) t)%N) as ->
      by (rewrite Hclk; unfold pollInterval; lia).
    split_and!; [done..| |].
    + done.
    + intros Hafter. unfold pollInterval in *.
      destruct (decide (pollsUntil (clock w) t = 1%N)) as [Heq|Hne];
        [rewrite Heq in *|specialize (Hlt Hne)]; lia.
Qed.

(** *** Left-over pollers *)

Lemma parse_failure cp op n e :
  _parseNotification cp op n = Rejected e → ∀ op', e ≠ timeoutError op'.
Proof.
  unfold _parseNotification. repeat case_bool_decide; intros [= <-] op'; done.
Qed.

Lemma find_failure cp op (buf : list Notification) e :
  (_findNotification cp op buf).1 = Rejected e → ∀ op', e ≠ timeoutError op'.
Proof.
  induction buf as [|n buf IH]; [done|]. simpl.
  pose proof (parse_failure cp op n) as Hn.
  destruct (_parseNotification cp op n) as [[v|]|e']; [done|done|].
  intros [= <-]. by apply Hn.
Qed.

Lemma wait_failure op interval pollsLeft budget w e :
  (wait op interval pollsLeft budget w).1 = Some (Rejected e) →
  ∀ op', e ≠ timeoutError op'.
Proof.
  revert budget w. induction pollsLeft as [|k IH]; intros budget w; cbn [wait];
    rewrite findNotification_run;
    pose proof (find_failure (control_point w) op (buffer w)) as Hfind;
    destruct (_findNotification _ _ _) as [[[v|]|e'] rest]; cbn [fst snd] in *;
    try done.
  - intros [= <-]. by apply Hfind.
  - apply IH.
  - intros [= <-]. by apply Hfind.
Qed.

Lemma runPollers_length fuel before w :
  length (pollers (runPollers fuel before w)) ≤ length (pollers w).
Proof.
  revert w. induction fuel as [|fuel IH]; intros w; cbn [runPollers]; [done|].
  destruct (firstDue (pollers w)) as [[i p]|] eqn:Hfirst; [|done].
  case_decide; [|done]. etrans; [apply IH|].
  apply firstDue_Some in Hfirst as [Hi _].
  destruct (staleRound_pollers i p w) as [-> | ->].
  - rewrite length_delete by eauto. lia.
  - by rewrite length_insert.
Qed.

Lemma deliver_pollers_length evs w :
  length (pollers (deliver evs w)) ≤ length (pollers w).
Proof.
  revert w. induction evs as [|[t ev] evs IH]; intros w; cbn [deliver].
  - apply runPollers_length.
  - case_decide; [|apply runPollers_length].
    etrans; [apply IH|]. rewrite dispatch_pollers. apply runPollers_length.
Qed.

(** A call that is still pending when its timer fires leaves its
    poller behind, due one interval after its last round; a call that
    a scan settles leaves none. *)
Lemma wait_pollers op interval pollsLeft budget w :
  (N.of_nat pollsLeft * interval ≤ budget)%N →
  match wait op interval pollsLeft budget w with
  | (Some _, w') => length (pollers w') ≤ length (pollers w)
  | (None, w') =>
      clock w' = (clock w + budget)%N ∧
      ∃ ps, pollers w' =
              ps ++ [{| poll_due := clock w + N.of_nat pollsLeft * interval + interval;
                        poll_opCode := op;
                        poll_interval := interval |}] ∧
            length ps ≤ length (pollers w)
  end.
Proof.
  revert budget w. induction pollsLeft as [|k IH]; intros budget w Hk; cbn [wait];
    rewrite findNotification_run;
    destruct (_findNotification _ _ _) as [[[v|]|e] rest]; cbn [fst snd];
    try done.
  - set (w0 := with_self (with_notifications rest) w). split.
    + change (clock (with_pollers ?f ?w1)) with (clock w1). by rewrite sleep_clock.
    + exists (pollers (sleep budget w0).2). split.
      * unfold with_pollers. cbn [pollers]. change (clock w0) with (clock w).
        do 2 f_equal. f_equal. lia.
      * rewrite sleep_run. cbn [snd]. by etrans; [apply deliver_pollers_length|].
  - set (w0 := with_self (with_notifications rest) w).
    assert (length (pollers (sleep interval w0).2) ≤ length (pollers w)) as Hlen.
    { rewrite sleep_run. cbn [snd]. by etrans; [apply deliver_pollers_length|]. }
    specialize (IH (budget - interval)%N (sleep interval w0).2).
    rewrite Nat2N.inj_succ, N.mul_succ_l in Hk.
    destruct (wait op interval k _ _) as [[r|] w'].
    + etrans; [apply IH; lia|done].
    + destruct IH as (Hclk & ps & Hps & Hle); [lia|]. split.
      * rewrite Hclk, sleep_clock. change (clock w0) with (clock w). lia.
      * exists ps. split; [|lia]. rewrite Hps, sleep_clock.
        change (clock w0) with (clock w).
        rewrite Nat2N.inj_succ, N.mul_succ_l. do 2 f_equal. f_equal. lia.
Qed.

(** X16: a [readNext] that times out leaves its poller behind, and no
    other call does.  When the call is rejected with
    [NotificationTimeout], that happens 20 s after the call and the
    world has one more poller, the youngest: the [wait] closure of the
    call, which scans for its opcode every 20 ms and whose next round
    is due in the instant of the timeout.  When the call settles in any
    other way, it adds no poller. *)
Theorem readNext_leaves_poller op w :
  let run := readNext op w in
  (run.1 = Rejected (timeoutError op) →
   clock run.2 = (clock w + timeout)%N ∧
   ∃ ps, pollers run.2 = ps ++ [leftOver (clock w) op] ∧
         length ps ≤ length (pollers w)) ∧
  (run.1 ≠ Rejected (timeoutError op) →
   length (pollers run.2) ≤ length (pollers w)).
Proof.
  intros run. unfold run, readNext, _waitForNotification.
  pose proof (wait_pollers op pollInterval
                (N.to_nat ((timeout - 1) / pollInterval)) timeout
                (record_call (ReadNext op) w)) as Hwait.
  pose proof (wait_failure op pollInterval
                (N.to_nat ((timeout - 1) / pollInterval)) timeout
                (record_call (ReadNext op) w)) as Hfail.
  destruct (wait _ _ _ _ _) as [[[v|e]|] w']; cbn [fst snd] in *.
  - split; [done|]. intros _. by apply Hwait; vm_compute.
  - split; [|intros _; by apply Hwait; vm_compute].
    intros [= ->]. by destruct (Hfail _ eq_refl op).
  - split; [|done]. intros _.
    destruct Hwait as (Hclk & ps & Hps & Hlen); [by vm_compute|].
    split; [done|]. exists ps. split; [|done]. rewrite Hps.
    change (clock (record_call (ReadNext op) w)) with (clock w).
    unfold leftOver. do 2 f_equal. f_equal.
    change (N.of_nat (N.to_nat ((timeout - 1) / pollInterval))) with 999%N.
    unfold timeout, pollInterval. lia.
Qed.

Lemma stalePolls_not_due before w :
  Forall (λ p, (before ≤ poll_due p)%N) (pollers w) → stalePolls before w = w.
Proof.
  intros Hps. unfold stalePolls.
  assert (sum_list (roundsBefore before <$> pollers w) = 0) as ->; [|done].
  revert Hps. generalize (pollers w).
  induction 1 as [|p ps Hp _ IH]; [done|]. simpl.
  unfold roundsBefore at 1. rewrite decide_False by lia. exact IH.
Qed.

Lemma runPollers_none fuel before w :
  pollers w = [] → runPollers fuel before w = w.
Proof. intros Hps. destruct fuel; cbn [runPollers]; by rewrite ?Hps. Qed.

(** The round of a single poller that finds a notification which the
    scan does not drop: it takes the notification and stops. *)
Lemma stalePolls_takes before w p n rest :
  pollers w = [p] →
  (poll_due p < before)%N →
  buffer w = n :: rest →
  ¬ discardable (control_point w) n →
  stalePolls before w =
  with_pollers (λ _, []) (with_self (with_notifications rest) w).
Proof.
  intros Hps Hdue Hbuf Hn. unfold stalePolls. rewrite Hps.
  change (sum_list (roundsBefore before <$> [p])) with (roundsBefore before p + 0).
  unfold roundsBefore. rewrite decide_True, Nat.add_0_r by done.
  cbn [runPollers].
  rewrite Hps. cbn [firstDue]. rewrite decide_True by done.
  assert (staleRound 0 p w =
    with_pollers (λ _, []) (with_self (with_notifications rest) w)) as ->.
  { unfold staleRound. rewrite findNotification_run, Hbuf. cbn [_findNotification].
    pose proof (parse_not_null (control_point w) (poll_opCode p) n Hn) as Hparse.
    destruct (_parseNotification _ _ n) as [[v|]|e]; [|done|]; cbn [fst snd];
      unfold with_pollers; cbn; by rewrite Hps. }
  by apply runPollers_none.
Qed.

(** While the code is suspended, a left-over poller takes a
    notification that arrives no later than its next round. *)
Lemma sleep_takes ms w p t n :
  pollers w = [p] →
  listeners w = 1 →
  buffer w = [] →
  schedule w = [(t, CharacteristicValueChanged n)] →
  ¬ discardable (control_point w) n →
  (t ≤ poll_due p)%N →
  (poll_due p ≤ clock w + ms)%N →
  buffer (sleep ms w).2 = [] ∧ pollers (sleep ms w).2 = [] ∧
  schedule (sleep ms w).2 = [].
Proof.
  intros Hps Hl Hbuf Hsched Hn Ht Hdue. rewrite sleep_run. cbn [snd].
  change (schedule (with_clock (clock w + ms) w)) with (schedule w).
  rewrite Hsched. set (w1 := with_clock (clock w + ms)%N w).
  cbn [deliver]. rewrite decide_True by (simpl; lia).
  rewrite (stalePolls_not_due t w1)
    by (change (pollers w1) with (pollers w); rewrite Hps; by repeat constructor).
  set (w2 := dispatch (CharacteristicValueChanged n) w1).
  rewrite (stalePolls_takes (clock w2 + 1) w2 p n []); [done|done|..|done].
  - simpl. lia.
  - unfold w2. rewrite dispatch_buffer.
    change (buffer w1) with (buffer w). change (listeners w1) with (listeners w).
    by rewrite Hl, Hbuf.
Qed.

(** X17: a left-over poller can take the answer away from the call
    that waits for it.  When the poller of a timed-out [readNext] is
    still polling, the callback is registered once, nothing is
    buffered, the successful response to the opcode of a new [readNext]
    arrives no later than the next round of the poller, and that round
    comes after the call and before its first re-poll, then the round
    of the poller shifts the response off the buffer, and the call,
    which would have been answered 20 ms after it was made, is rejected
    with [NotificationTimeout] after 20 s. *)
Theorem left_over_poller_takes_answer op w p t n :
  pollers w = [p] →
  listeners w = 1 →
  buffer w = [] →
  schedule w = [(t, CharacteristicValueChanged n)] →
  matches (control_point w) op n →
  (t ≤ poll_due p)%N →
  (clock w < poll_due p)%N →
  (poll_due p < clock w + pollInterval)%N →
  ∃ w', readNext op w = (Rejected (timeoutError op), w') ∧
        clock w' = (clock w + timeout)%N.
Proof.
  intros Hps Hl Hbuf Hsched Hn Ht Hafter Hdue.
  unfold readNext, _waitForNotification.
  replace (N.to_nat ((timeout - 1) / pollInterval)) with (S 998) by by vm_compute.
  rewrite wait_repolls
    by (change (buffer (record_call (ReadNext op) w)) with (buffer w);
        rewrite Hbuf; constructor).
  set (w1 := with_self (with_notifications []) (record_call (ReadNext op) w)).
  destruct (sleep_takes pollInterval w1 p t n) as (Hb & _ & Hs);
    [done|done|done|done|by eapply matches_not_discardable|done| |].
  { change (clock w1) with (clock w). lia. }
  destruct (wait_quiet op pollInterval 998 (timeout - pollInterval)
              (sleep pollInterval w1).2) as (w' & Hrun & Hclk).
  - by vm_compute.
  - rewrite Hb. constructor.
  - rewrite Hs. constructor.
  - rewrite Hrun. exists w'. split; [done|].
    rewrite Hclk, sleep_clock. change (clock w1) with (clock w).
    unfold timeout, pollInterval. lia.
Qed.
End ReadNextMore.

(** ** [writeObject] *)

Lemma dispatch_unabortable ev w :
  ev ≠ AbortCall → _abort (self (dispatch ev w)) = _abort (self w).
Proof. by destruct ev. Qed.

Section WriteObjectMore.
Context `{DfuConstants} `{IntArrayConv} `{DfuPacketWriter.Interface W}.
Implicit Types (w : World) (pw : W) (p data : list Z) (pi : ProgressInfo).

Lemma deliver_unabortable evs w :
  noAbortScheduled evs → _abort (self w) = false →
  unabortable (deliver evs w).
Proof.
  revert w. induction evs as [|[t ev] evs IH]; intros w Hevs Ha; cbn [deliver].
  - split; [|by constructor].
    exact (eq_trans (polled_abort w _ (stalePolls_polled (clock w + 1) w)) Ha).
  - apply Forall_cons in Hevs as [Hev Hevs]. simpl in Hev.
    case_decide.
    + apply IH; [done|].
      by rewrite dispatch_unabortable, (polled_abort w _ (stalePolls_polled t w)).
    + split; [|by constructor].
      exact (eq_trans (polled_abort w _ (stalePolls_polled (clock w + 1) w)) Ha).
Qed.

Lemma sleep_unabortable ms w : unabortable w → unabortable (sleep ms w).2.
Proof. intros [Ha Hs]. rewrite sleep_run. by apply deliver_unabortable. Qed.

Lemma _writePackets_unchecked pw packets w :
  unabortable w →
  reportsNothing pw packets →
  ∃ w', _writePackets pw packets w = (Resolved (writerAfter pw packets), w') ∧
        calls w' = calls w ++ (WritePacket <$> packets) ∧
        unabortable w'.
Proof.
  revert pw w. induction packets as [|p packets IH]; intros pw w Hw Hrep.
  - exists w. by rewrite app_nil_r.
  - destruct Hrep as [Hp Hrep]. destruct Hw as [Ha Hs].
    rewrite _writePackets_cons, _writePacket_run, Ha. cbn zeta. rewrite Hp.
    destruct (IH (writer_after (DfuPacketWriter.writePacket p pw)) (afterWrite pw p w))
      as (w' & Hrun & Hcalls & Hw'); [|done|].
    { by apply sleep_unabortable. }
    exists w'. split_and!; [done| |done].
    rewrite Hcalls, afterWrite_calls, <-(assoc_L (++)). done.
Qed.

(** X8: a transfer without checkpoints does not depend on the device.
    When the packet writer reports no checkpoint and no failure for the
    packets of the data, the abort flag is not set and no [abort()] is
    to come, [writeObject] resolves with the final offset and CRC32 of
    the packet writer whatever notifications arrive; it has written
    every packet in order and has not called [readNext]. *)
Theorem writeObject_unchecked data startOffset startCrc32 w :
  let packetWriter := _createPacketWriter startOffset startCrc32 (self w) in
  let packets := splitArray data (_mtuSize (self w)) in
  unabortable w →
  reportsNothing packetWriter packets →
  let run := writeObject data startOffset startCrc32 w in
  run.1 = Resolved
    {| offset := DfuPacketWriter.getOffset (writerAfter packetWriter packets);
       crc32 := DfuPacketWriter.getCrc32 (writerAfter packetWriter packets) |} ∧
  calls run.2 =
    calls w ++ [AdapterOn] ++ (WritePacket <$> packets) ++ [AdapterRemoveListener].
Proof.
  intros pw0 packets Hw Hrep run. unfold run. rewrite writeObject_run.
  fold pw0. fold packets.
  destruct (_writePackets_unchecked pw0 packets (startListening w).2)
    as (w' & Hrun & Hcalls & _); [done|done|].
  rewrite Hrun. cbn [fst snd]. split; [done|].
  rewrite stopListening_calls, Hcalls. simpl. by rewrite <-!(assoc_L (++)).
Qed.

(** The world and the writer when the packets [pre] of a transfer have
    been written and validated, and the transfer goes on. *)
Lemma writeObject_after pre data startOffset startCrc32 w rest pw w1 :
  splitArray data (_mtuSize (self w)) = pre ++ rest →
  _writePackets (_createPacketWriter startOffset startCrc32 (self w)) pre
    (startListening w).2 = (Resolved pw, w1) →
  writeObject data startOffset startCrc32 w =
    match _writePackets pw rest w1 with
    | (Resolved pw', w') =>
        (Resolved {| offset := DfuPacketWriter.getOffset pw';
                     crc32 := DfuPacketWriter.getCrc32 pw' |},
         (stopListening w').2)
    | (Rejected e, w') => (Rejected e, (stopListening w').2)
    end ∧
  written (calls w1) = written (calls w) ++ pre.
Proof.
  intros Hsplit Hpre. split.
  - by rewrite writeObject_run, Hsplit, _writePackets_app, Hpre.
  - destruct (_writePackets_calls (_createPacketWriter startOffset startCrc32 (self w))
                pre (startListening w).2) as (k & vs & _ & Hvs & Hc & Hres).
    rewrite Hpre in Hc, Hres. simpl in Hc, Hres.
    rewrite (Hres pw eq_refl), take_ge in Hc by done.
    rewrite Hc, !written_app, written_packetRounds, app_nil_r; [done|].
    rewrite Hvs. by eapply Hres.
Qed.

(** X9: a failure of the packet writer is the failure of the transfer.
    When [writePacket] rejects for a packet, [writeObject] is rejected
    with the very same error once the queue has stopped listening, and
    no packet after that one is handed to the packet writer. *)
Theorem transport_failure_fails_transfer
    data startOffset startCrc32 w pre p rest pw w1 e :
  splitArray data (_mtuSize (self w)) = pre ++ p :: rest →
  _writePackets (_createPacketWriter startOffset startCrc32 (self w)) pre
    (startListening w).2 = (Resolved pw, w1) →
  _abort (self w1) = false →
  reported (DfuPacketWriter.writePacket p pw) = Rejected e →
  let run := writeObject data startOffset startCrc32 w in
  run = (Rejected e, (stopListening (afterWrite pw p w1)).2) ∧
  written (calls run.2) = written (calls w) ++ pre ++ [p].
Proof.
  intros Hsplit Hpre Ha Hrep run.
  destruct (writeObject_after pre data startOffset startCrc32 w (p :: rest) pw w1)
    as [Hrun Hwritten]; [done..|].
  assert (run = (Rejected e, (stopListening (afterWrite pw p w1)).2)) as ->.
  { unfold run. rewrite Hrun, _writePackets_cons, _writePacket_run, Ha.
    cbn zeta. by rewrite Hrep. }
  split; [done|]. cbn [snd].
  rewrite stopListening_calls, afterWrite_calls, !written_app, Hwritten. simpl.
  by rewrite app_nil_r, <-(assoc_L (++)).
Qed.

(** X10: when the [readNext] of a checkpoint is rejected (no answer in
    20 s, an answer with another opcode, an answer with an error code),
    [writeObject] is rejected with the very same error once the queue
    has stopped listening, and no packet after the checked one is handed
    to the packet writer. *)
Theorem unanswered_checkpoint_fails_transfer
    data startOffset startCrc32 w pre p rest pw w1 pi e w2 :
  splitArray data (_mtuSize (self w)) = pre ++ p :: rest →
  _writePackets (_createPacketWriter startOffset startCrc32 (self w)) pre
    (startListening w).2 = (Resolved pw, w1) →
  _abort (self w1) = false →
  reported (DfuPacketWriter.writePacket p pw) = Resolved (Some pi) →
  readNext CALCULATE_CRC (afterWrite pw p w1) = (Rejected e, w2) →
  let run := writeObject data startOffset startCrc32 w in
  run = (Rejected e, (stopListening w2).2) ∧
  readNextError CALCULATE_CRC e ∧
  written (calls run.2) = written (calls w) ++ pre ++ [p].
Proof.
  intros Hsplit Hpre Ha Hrep Hread run.
  destruct (writeObject_after pre data startOffset startCrc32 w (p :: rest) pw w1)
    as [Hrun Hwritten]; [done..|].
  assert (run = (Rejected e, (stopListening w2).2)) as ->.
  { unfold run. rewrite Hrun, _writePackets_cons, _writePacket_run, Ha.
    cbn zeta. by rewrite Hrep, _validateProgress_run, Hread. }
  split_and!; [done| |].
  - pose proof (wait_outcome CALCULATE_CRC pollInterval
                  (N.to_nat ((timeout - 1) / pollInterval)) timeout
                  (record_call (ReadNext CALCULATE_CRC) (afterWrite pw p w1))) as Hout.
    unfold readNext, _waitForNotification in Hread.
    destruct (wait _ _ _ _ _) as [[[v|e']|] w'']; cbn [fst] in *; simplify_eq;
      [done|by left].
  - pose proof (readNext_calls CALCULATE_CRC (afterWrite pw p w1)) as Hc.
    rewrite Hread in Hc. cbn [snd] in *.
    rewrite stopListening_calls, Hc, afterWrite_calls, !written_app, Hwritten.
    simpl. by rewrite !app_nil_r, <-(assoc_L (++)).
Qed.

(** X11: a checkpoint that the device confirms lets the transfer go
    on.  When the answer to the checkpoint of a packet decodes to the
    expected offset and CRC32, the outcome of [writeObject] is the
    outcome of writing the remaining packets, from the packet writer as
    the checked write left it and from the moment the answer was read. *)
Theorem confirmed_checkpoint_continues
    data startOffset startCrc32 w pre p rest pw w1 pi v w2 :
  splitArray data (_mtuSize (self w)) = pre ++ p :: rest →
  _writePackets (_createPacketWriter startOffset startCrc32 (self w)) pre
    (startListening w).2 = (Resolved pw, w1) →
  _abort (self w1) = false →
  reported (DfuPacketWriter.writePacket p pw) = Resolved (Some pi) →
  readNext CALCULATE_CRC (afterWrite pw p w1) = (Resolved v, w2) →
  arrayToInt (slice 3 7 v) = offset pi →
  arrayToInt (slice 7 11 v) = crc32 pi →
  writeObject data startOffset startCrc32 w =
    match _writePackets (writer_after (DfuPacketWriter.writePacket p pw)) rest w2 with
    | (Resolved pw', w') =>
        (Resolved {| offset := DfuPacketWriter.getOffset pw';
                     crc32 := DfuPacketWriter.getCrc32 pw' |},
         (stopListening w').2)
    | (Rejected e, w') => (Rejected e, (stopListening w').2)
    end ∧
  written (calls w2) = written (calls w) ++ pre ++ [p].
Proof.
  intros Hsplit Hpre Ha Hrep Hread Hoff Hcrc.
  destruct (writeObject_after pre data startOffset startCrc32 w (p :: rest) pw w1)
    as [Hrun Hwritten]; [done..|].
  split.
  - rewrite Hrun, _writePackets_cons, _writePacket_run, Ha. cbn zeta.
    rewrite Hrep, _validateProgress_run, Hread. unfold checkpointVerdict.
    rewrite !bool_decide_eq_false_2 by (intros Hne; by apply Hne). done.
  - pose proof (readNext_calls CALCULATE_CRC (afterWrite pw p w1)) as Hc.
    rewrite Hread in Hc. cbn [snd] in Hc.
    rewrite Hc, afterWrite_calls, !written_app, Hwritten.
    simpl. by rewrite !app_nil_r, <-(assoc_L (++)).
Qed.

Lemma deliver_abort t later w :
  (t ≤ clock w)%N → _abort (self (deliver ((t, AbortCall) :: later) w)) = true.
Proof.
  intros Ht. cbn [deliver]. rewrite decide_True by done.
  by apply (deliver_step later (dispatch AbortCall (stalePolls t w))).
Qed.

(** X12: [abort()] stops the transfer before the next packet, not the
    write in flight.  When [abort()] is called while a packet is being
    written (no checkpoint due), that packet is still handed to the
    packet writer and its write is awaited; the packet after it is not
    written and the chain is rejected with [Aborted]. *)
Theorem abort_between_packets pw p q rest w t later :
  _abort (self w) = false →
  schedule w = (t, AbortCall) :: later →
  (t ≤ clock w + elapsed (DfuPacketWriter.writePacket p pw))%N →
  reported (DfuPacketWriter.writePacket p pw) = Resolved None →
  _writePackets pw (p :: q :: rest) w = (Rejected aborted, afterWrite pw p w) ∧
  calls (afterWrite pw p w) = calls w ++ [WritePacket p] ∧
  clock (afterWrite pw p w) =
    (clock w + elapsed (DfuPacketWriter.writePacket p pw))%N.
Proof.
  intros Ha Hsched Ht Hrep.
  assert (_abort (self (afterWrite pw p w)) = true) as Ha'.
  { unfold afterWrite. rewrite sleep_run. cbn [snd].
    change (schedule (record_call (WritePacket p) w)) with (schedule w).
    rewrite Hsched. by apply deliver_abort. }
  split_and!.
  - rewrite _writePackets_cons, _writePacket_run, Ha. cbn zeta. rewrite Hrep.
    by rewrite _writePackets_cons, _writePacket_run, Ha'.
  - apply afterWrite_calls.
  - unfold afterWrite. by rewrite sleep_clock.
Qed.
End WriteObjectMore.

(** ** What a transfer leaves alone *)

Global Instance same_config_preorder : PreOrder same_config.
Proof.
  split; [by intros w|].
  intros w1 w2 w3 (Hp1 & Hc1 & Hm1 & Hr1) (Hp2 & Hc2 & Hm2 & Hr2).
  unfold same_config. split_and!; congruence.
Qed.

Lemma polled_same_config w w' : polled w w' → same_config w w'.
Proof. by intros (k & ps & _ & ->). Qed.

Section Frame.
Context `{DfuConstants} `{IntArrayConv} `{DfuPacketWriter.Interface W}.
Implicit Types (w : World) (pw : W) (p data : list Z) (pi : ProgressInfo).

Lemma deliver_same_config evs w : same_config w (deliver evs w).
Proof.
  apply deliver_preserves; [apply _|apply polled_same_config|by intros []|done].
Qed.

Lemma sleep_same_config ms : preserves same_config (sleep ms).
Proof.
  intros w. rewrite sleep_run. cbn [snd].
  etrans; [|apply deliver_same_config]. done.
Qed.

Lemma wait_same_config op interval pollsLeft budget :
  preserves same_config (wait op interval pollsLeft budget).
Proof.
  revert budget. induction pollsLeft as [|k IH]; intros budget w; cbn [wait];
    rewrite findNotification_run;
    destruct (_findNotification _ _ _) as [[[v|]|e] rest]; cbn [fst snd];
    try done.
  - trans (with_self (with_notifications rest) w); [done|].
    trans (sleep budget (with_self (with_notifications rest) w)).2;
      [apply sleep_same_config|done].
  - etrans; [|apply IH]. by etrans; [|apply (sleep_same_config interval)].
Qed.

Lemma readNext_same_config op : preserves same_config (readNext op).
Proof.
  intros w. unfold readNext, _waitForNotification.
  pose proof (wait_same_config op pollInterval
                (N.to_nat ((timeout - 1) / pollInterval)) timeout
                (record_call (ReadNext op) w)) as Hw.
  destruct (wait _ _ _ _ _) as [[r|] w']; exact Hw.
Qed.

Lemma _writePacket_same_config pw p : preserves same_config (_writePacket pw p).
Proof.
  intros w. rewrite _writePacket_run. destruct (_abort (self w)); [done|].
  cbn zeta.
  assert (same_config w (afterWrite pw p w)) as Hafter.
  { unfold afterWrite. by etrans; [|apply sleep_same_config]. }
  destruct (reported (DfuPacketWriter.writePacket p pw)) as [[pi|]|e]; [|done..].
  rewrite _validateProgress_run.
  pose proof (readNext_same_config CALCULATE_CRC (afterWrite pw p w)) as Hr.
  destruct (readNext CALCULATE_CRC _) as [[v|e] w']; cbn [snd] in *.
  - destruct (checkpointVerdict v pi) as [[]|e]; by etrans.
  - by etrans.
Qed.

Lemma _writePackets_same_config pw packets :
  preserves same_config (_writePackets pw packets).
Proof.
  revert pw. induction packets as [|p packets IH]; intros pw w; [done|].
  rewrite _writePackets_cons. pose proof (_writePacket_same_config pw p w) as Hp.
  destruct (_writePacket pw p w) as [[pw'|e] w']; [|done].
  etrans; [exact Hp|apply IH].
Qed.

Lemma writeObject_queue data startOffset startCrc32 w :
  listeners (writeObject data startOffset startCrc32 w).2 = listeners w ∧
  buffer (writeObject data startOffset startCrc32 w).2 = [].
Proof.
  rewrite writeObject_run.
  destruct (_writePackets_step (_createPacketWriter startOffset startCrc32 (self w))
              (splitArray data (_mtuSize (self w))) (startListening w).2)
    as (_ & Hl & _).
  destruct (_writePackets _ _ _) as [[pw|e] w']; cbn [snd] in *;
    simpl; by rewrite Hl.
Qed.

(** X13: the configuration outlives every transfer.  Whatever the
    outcome of [writeObject], and whatever arrives meanwhile, the MTU
    size, the PRN value and the two characteristic ids of the object
    writer are afterwards what they were before the call. *)
Theorem writeObject_keeps_configuration data startOffset startCrc32 w :
  let w' := (writeObject data startOffset startCrc32 w).2 in
  _mtuSize (self w') = _mtuSize (self w) ∧
  _prn (self w') = _prn (self w) ∧
  _packetCharacteristicId (self w') = _packetCharacteristicId (self w) ∧
  control_point w' = control_point w.
Proof.
  intros w'. unfold w'. rewrite writeObject_run.
  pose proof (_writePackets_same_config
                (_createPacketWriter startOffset startCrc32 (self w))
                (splitArray data (_mtuSize (self w))) (startListening w).2)
    as (Hp & Hc & Hm & Hr).
  destruct (_writePackets _ _ _) as [[pw|e] w1]; cbn [snd] in *; by split_and!.
Qed.

(** X14: between transfers the queue is idle.  If the callback is not
    registered and nothing is buffered, this is so again after any
    sequence of [writeObject] calls, whatever their outcomes and
    whatever pollers their timed-out [readNext] calls leave behind, and
    notifications that the adapter emits meanwhile are not buffered. *)
Theorem queue_idle_between_transfers (requests : list (list Z * Z * Z)) ms w :
  idle w →
  idle (writeObjects requests w).2 ∧ idle (sleep ms w).2.
Proof.
  intros Hw. split.
  - revert w Hw. induction requests as [|[[data o] c] requests IH]; intros w Hw;
      [done|].
    simpl. pose proof (writeObject_queue data o c w) as [Hl Hb].
    destruct (writeObject data o c w) as [r w']. cbn [snd] in *.
    specialize (IH w'). destruct (writeObjects requests w') as [rs w''].
    apply IH. destruct Hw as [Hl0 _]. split; [congruence|done].
  - destruct Hw as [Hl Hb]. rewrite sleep_run. cbn [snd]. split.
    + by rewrite (proj1 (proj2 (deliver_step _ _))).
    + by rewrite deliver_unsubscribed.
Qed.

(** *** Pollers left behind by transfers *)










End Frame.

(** ** The further properties at concrete inputs *)

Section MoreInstances.
Local Existing Instance secureDfuConstants.
Local Existing Instance littleEndianConv.
Local Existing Instance exampleLink.

Lemma parse_truncated_witness :
  _parseNotification "control-point" 3
    {| _instanceId := "control-point"; value := [0x60]%Z |} =
  Rejected (createError UNEXPECTED_NOTIFICATION
              "Got unexpected response. Expected code 96, but got code undefined.") ∧
  _parseNotification "control-point" 3
    {| _instanceId := "control-point"; value := [0x60; 0x03]%Z |} =
  Rejected (createError COMMAND_ERROR "Operation 3 returned error code undefined").
Proof.
  split.
  - destruct (parse_truncated "control-point" 3
                {| _instanceId := "control-point"; value := [0x60]%Z |})
      as (_ & Hone & _); [reflexivity|].
    exact (Hone eq_refl).
  - destruct (parse_truncated "control-point" 3
                {| _instanceId := "control-point"; value := [0x60; 0x03]%Z |})
      as (_ & _ & Htwo); [reflexivity|].
    exact (Htwo eq_refl).
Defined.

Lemma arrivals_are_buffered_in_order_witness :
  let w := exampleWorld exampleWriter [foreignNotification] 1
             [(3%N, CharacteristicValueChanged failedResponse);
              (4%N, AbortCall);
              (9%N, CharacteristicValueChanged (crcNotification 20 0))] in
  buffer (sleep 10 w).2 =
    [foreignNotification; failedResponse; crcNotification 20 0] ∧
  schedule (sleep 10 w).2 = [].
Proof.
  intros w.
  destruct (arrivals_are_buffered_in_order 10 w) as (_ & Hbuf & Hsched).
  - reflexivity.
  - compute_done.
  - split; [exact (Hbuf eq_refl)|exact Hsched].
Defined.

Lemma readNext_unsubscribed_witness :
  let w := exampleWorld exampleWriter [foreignNotification] 0
             [(30%N, CharacteristicValueChanged (crcNotification 20 0))] in
  ∃ w', readNext 3 w = (Rejected (timeoutError 3), w') ∧
        clock w' = 20000%N ∧ buffer w' = [].
Proof.
  intros w. apply (readNext_unsubscribed 3 w).
  - reflexivity.
  - compute_done.
Defined.

Lemma stopListening_drops_answers_witness :
  let w := exampleWorld exampleWriter [crcNotification 20 0] 1 [] in
  buffer (stopListening w).2 = [] ∧
  ∃ w', readNext 3 (stopListening w).2 = (Rejected (timeoutError 3), w') ∧
        clock w' = 20000%N.
Proof.
  intros w. apply (stopListening_drops_answers 3 w). simpl. lia.
Defined.

Lemma readNext_answered_at_next_poll_witness :
  let w := exampleWorld exampleWriter [foreignNotification] 1
             [(30%N, CharacteristicValueChanged unmarkedNotification);
              (130%N, CharacteristicValueChanged (crcNotification 20 0));
              (135%N, CharacteristicValueChanged failedResponse)] in
  ∃ w', readNext 3 w = (Resolved (crcResponse 20 0), w') ∧ clock w' = 140%N.
Proof.
  intros w.
  destruct (readNext_answered_at_next_poll 3 w
              [(30%N, CharacteristicValueChanged unmarkedNotification)]
              130 (crcNotification 20 0)
              [(135%N, CharacteristicValueChanged failedResponse)])
    as (w' & Hrun & Hclk & _).
  - reflexivity.
  - simpl. lia.
  - compute_done.
  - reflexivity.
  - unfold ahead. compute_done.
  - compute_done.
  - by vm_compute.
  - exists w'. split; [exact Hrun|]. rewrite Hclk. by vm_compute.
Defined.

Lemma readNext_leaves_poller_witness :
  let w := exampleWorld exampleWriter [foreignNotification] 1 [] in
  pollers (readNext 3 w).2 = [leftOver 0 3].
Proof.
  intros w. destruct (readNext_leaves_poller 3 w) as [Htimeout _].
  destruct Htimeout as (_ & ps & Hps & Hlen); [by vm_compute|].
  destruct ps as [|p ps]; [exact Hps|]. simpl in Hlen. lia.
Defined.

Lemma left_over_poller_takes_answer_witness :
  let answer := crcNotification 20 0 in
  let w0 := exampleWorld exampleWriter [] 1
              [(20010%N, CharacteristicValueChanged answer)] in
  let w := (sleep 5 (readNext 3 w0).2).2 in
  (readNext 3 w0).1 = Rejected (timeoutError 3) ∧
  ∃ w', readNext 3 w = (Rejected (timeoutError 3), w') ∧ clock w' = 40005%N.
Proof.
  intros answer w0 w. split; [vm_compute; reflexivity|].
  destruct (left_over_poller_takes_answer 3 w
              {| poll_due := 20020; poll_opCode := 3; poll_interval := 20 |}
              20010 answer) as (w' & Hrun & Hclk).
  - vm_compute. reflexivity.
  - vm_compute. reflexivity.
  - vm_compute. reflexivity.
  - vm_compute. reflexivity.
  - vm_compute. by repeat split.
  - simpl. lia.
  - vm_compute. reflexivity.
  - vm_compute. reflexivity.
  - exists w'. split; [exact Hrun|]. rewrite Hclk. clear Hrun Hclk.
    vm_compute. reflexivity.
Defined.

(** Two transfers whose checkpoints the device never answers: each
    leaves its poller behind, and both are still polling afterwards. *)
Example pollers_pile_up :
  let w := exampleWorld checkingWriter [] 0 [] in
  let run := writeObjects [(take 20 firmware, 0, 0); (take 20 firmware, 0, 0)]%Z w in
  run.1 = [Rejected (timeoutError 3); Rejected (timeoutError 3)] ∧
  pollers run.2 =
    [{| poll_due := 40025; poll_opCode := 3; poll_interval := 20 |};
     {| poll_due := 40010; poll_opCode := 3; poll_interval := 20 |}] ∧
  length (pollers run.2) = length (pollers w) + sum_list (leak <$> run.1).
Proof. by vm_compute. Qed.

Lemma writeObject_unchecked_witness :
  let w := exampleWorld exampleWriter [] 0
             [(7%N, CharacteristicValueChanged failedResponse)] in
  let run := writeObject firmware 0 0 w in
  run.1 = Resolved {| offset := 60; crc32 := firmwareCrc 60 |} ∧
  calls run.2 =
    [AdapterOn] ++ (WritePacket <$> splitArray firmware 20) ++ [AdapterRemoveListener].
Proof.
  intros w run.
  destruct (writeObject_unchecked firmware 0 0 w) as [Hrun Hcalls].
  - split; [reflexivity|]. unfold noAbortScheduled.
    constructor; [done|constructor].
  - vm_compute. by repeat split.
  - split; [|exact Hcalls]. refine (eq_trans Hrun _). by vm_compute.
Defined.

Lemma unanswered_checkpoint_fails_transfer_witness :
  let w := exampleWorld checkingWriter [] 0 [] in
  let run := writeObject firmware 0 0 w in
  run.1 = Rejected (timeoutError 3) ∧
  written (calls run.2) = [take 20 firmware].
Proof.
  intros w run.
  pose (pw0 := _createPacketWriter 0 0 (self w)).
  pose (w1 := (startListening w).2).
  destruct (unanswered_checkpoint_fails_transfer firmware 0 0 w
              [] (take 20 firmware) (drop 1 (splitArray firmware 20)) pw0 w1
              {| offset := 20; crc32 := firmwareCrc 20 |}
              (timeoutError 3)
              (readNext 3 (afterWrite pw0 (take 20 firmware) w1)).2)
    as (Hrun & _ & Hwritten).
  - by vm_compute.
  - reflexivity.
  - reflexivity.
  - by vm_compute.
  - by vm_compute.
  - split; [unfold run; by rewrite Hrun|exact Hwritten].
Defined.

Lemma confirmed_checkpoint_continues_witness :
  let w := exampleWorld checkingWriter [] 0
             [(3%N, CharacteristicValueChanged (crcNotification 20 (firmwareCrc 20)))] in
  (writeObject firmware 0 0 w).1 = Rejected (timeoutError 3) ∧
  written (calls (writeObject firmware 0 0 w).2) = take 2 (splitArray firmware 20).
Proof.
  intros w.
  pose (pw0 := _createPacketWriter 0 0 (self w)).
  pose (w1 := (startListening w).2).
  destruct (confirmed_checkpoint_continues firmware 0 0 w
              [] (take 20 firmware) (drop 1 (splitArray firmware 20)) pw0 w1
              {| offset := 20; crc32 := firmwareCrc 20 |}
              (crcResponse 20 (firmwareCrc 20))
              (readNext 3 (afterWrite pw0 (take 20 firmware) w1)).2)
    as [Hrun _].
  - by vm_compute.
  - reflexivity.
  - reflexivity.
  - by vm_compute.
  - by vm_compute.
  - by vm_compute.
  - by vm_compute.
  - rewrite Hrun. clear Hrun. vm_compute. split; reflexivity.
Defined.

Lemma abort_between_packets_witness :
  let w := exampleWorld exampleWriter [] 1 [(4%N, AbortCall)] in
  let packets := splitArray firmware 20 in
  (_writePackets (_createPacketWriter 0 0 (self w)) packets w).1 = Rejected aborted ∧
  written (calls (_writePackets (_createPacketWriter 0 0 (self w)) packets w).2) =
    [take 20 firmware].
Proof.
  intros w packets.
  destruct (abort_between_packets (_createPacketWriter 0 0 (self w))
              (take 20 firmware) (take 20 (drop 20 firmware))
              [drop 40 firmware] w 4 []) as (Hrun & Hcalls & _).
  - reflexivity.
  - reflexivity.
  - by vm_compute.
  - by vm_compute.
  - change packets with
      [take 20 firmware; take 20 (drop 20 firmware); drop 40 firmware].
    rewrite Hrun. cbn [fst snd]. split; [done|]. by rewrite Hcalls.
Defined.

Lemma queue_idle_between_transfers_witness :
  let w := exampleWorld checkingWriter [] 0
             [(3%N, CharacteristicValueChanged (crcNotification 21 0));
              (40000%N, CharacteristicValueChanged failedResponse)] in
  idle (writeObjects [(firmware, 0, 0); (take 45 firmware, 0, 0)]%Z w).2 ∧
  idle (sleep 50000 w).2.
Proof.
  intros w.
  apply (queue_idle_between_transfers
           [(firmware, 0, 0); (take 45 firmware, 0, 0)]%Z 50000 w).
  by split.
Defined.

End MoreInstances.

Section BrokenLink.
Local Existing Instance secureDfuConstants.
Local Existing Instance littleEndianConv.
Local Existing Instance brokenLink.

Lemma transport_failure_fails_transfer_witness :
  let w := exampleWorld exampleWriter [] 0 [] in
  let run := writeObject firmware 0 0 w in
  run.1 = Rejected (ExternalError "write failed") ∧
  written (calls run.2) = take 2 (splitArray firmware 20) ∧
  listeners run.2 = 0.
Proof.
  intros w run.
  pose (pw0 := _createPacketWriter 0 0 (self w)).
  destruct (transport_failure_fails_transfer firmware 0 0 w
              [take 20 firmware] (take 20 (drop 20 firmware)) [drop 40 firmware]
              (writerAfter pw0 [take 20 firmware])
              (_writePackets pw0 [take 20 firmware] (startListening w).2).2
              (ExternalError "write failed"))
    as [Hrun Hwritten].
  - by vm_compute.
  - by vm_compute.
  - by vm_compute.
  - by vm_compute.
  - split_and!; [unfold run; by rewrite Hrun|exact Hwritten|].
    unfold run. rewrite Hrun. by vm_compute.
Defined.
End BrokenLink.
